(** * Dify on AWS: resource names and configuration checks of the stack

    A shallow embedding of the name derivation (sanitize, buildName,
    buildBucketName), of the configuration checks made by the constructor
    of DifyOnAwsStack (lib/dify-on-aws-stack.ts), and of the names the
    WebService and Redis constructs derive from the prefix they are given.

    Strings are JavaScript strings: sequences of UTF-16 code units. *)

From Stdlib Require Import String Ascii.
From Stdlib Require Import List NArith ZArith Bool Lia.
Import ListNotations.

Set Implicit Arguments.

(** ** JavaScript strings *)

Module JS.

(** A string is the list of its code units. *)
Abbreviation code_unit := N (only parsing).
Abbreviation jsstring := (list N) (only parsing).

(** An ASCII literal as a JavaScript string. *)
Definition str (s : string) : jsstring :=
  map N_of_ascii (list_ascii_of_string s).
Arguments str s%_string.

Definition hyphen : code_unit := 45%N.
Definition zero_digit : code_unit := 48%N.

Definition is_lower (c : code_unit) : bool := (97 <=? c)%N && (c <=? 122)%N.
Definition is_digit (c : code_unit) : bool := (48 <=? c)%N && (c <=? 57)%N.
Definition is_hyphen (c : code_unit) : bool := (c =? hyphen)%N.
Definition is_alnum (c : code_unit) : bool := is_lower c || is_digit c.

(** The class [[a-z0-9-]]. *)
Definition in_class (c : code_unit) : bool := is_alnum c || is_hyphen c.

(** [a || b] on strings: the empty string is the only falsy one. *)
Definition or_else (a b : jsstring) : jsstring :=
  match a with
  | [] => b
  | _ :: _ => a
  end.

(** [s.slice(0, e)] for an integer [e]: a negative end counts from the end
    of the string. *)
Definition slice0 (s : jsstring) (e : Z) : jsstring :=
  if (e <? 0)%Z
  then firstn (Z.to_nat (Z.max 0 (Z.of_nat (length s) + e))) s
  else firstn (Z.to_nat e) s.

(** [s.padEnd(n, fill)] for a filler of one code unit. *)
Definition padEnd (s : jsstring) (n : nat) (fill : code_unit) : jsstring :=
  s ++ repeat fill (n - length s).

(** [parts.join(sep)]. *)
Fixpoint join (sep : jsstring) (parts : list jsstring) : jsstring :=
  match parts with
  | [] => []
  | p :: rest =>
      match rest with
      | [] => p
      | _ :: _ => p ++ sep ++ join sep rest
      end
  end.

Definition nonempty (s : jsstring) : bool := (0 <? length s)%nat.

(** [String.prototype.toLowerCase] belongs to the runtime.  It is given here
    on code units for ASCII, for Latin-1, and for the two code points whose
    lower-case form contains an ASCII letter (U+0130 and U+212A, the Kelvin
    sign).  Every other code unit is left as it is: it lies outside
    [[a-z0-9-]] before and after the conversion. *)
Definition lower_unit (c : code_unit) : list code_unit :=
  if (65 <=? c)%N && (c <=? 90)%N then [(c + 32)%N]
  else if (c =? 304)%N then [105%N; 775%N]
  else if (c =? 8490)%N then [107%N]
  else if (192 <=? c)%N && (c <=? 222)%N && negb (c =? 215)%N then [(c + 32)%N]
  else [c].

Definition toLowerCase (s : jsstring) : jsstring := flat_map lower_unit s.

(** *** Regular expressions

    The patterns of the source that are used with [test], and the pattern
    the sanitized tokens are specified by. *)

Inductive regex : Type :=
| Void : regex
| Eps : regex
| Class : (code_unit -> bool) -> regex
| Cat : regex -> regex -> regex
| Alt : regex -> regex -> regex
| Star : regex -> regex.

Definition Plus (r : regex) : regex := Cat r (Star r).

Inductive Matches : regex -> jsstring -> Prop :=
| MEps : Matches Eps []
| MClass p c : p c = true -> Matches (Class p) [c]
| MCat r1 r2 s1 s2 :
    Matches r1 s1 -> Matches r2 s2 -> Matches (Cat r1 r2) (s1 ++ s2)
| MAltL r1 r2 s : Matches r1 s -> Matches (Alt r1 r2) s
| MAltR r1 r2 s : Matches r2 s -> Matches (Alt r1 r2) s
| MStarNil r : Matches (Star r) []
| MStarApp r s1 s2 :
    Matches r s1 -> Matches (Star r) s2 -> Matches (Star r) (s1 ++ s2).

Fixpoint nullable (r : regex) : bool :=
  match r with
  | Void => false
  | Eps => true
  | Class _ => false
  | Cat r1 r2 => nullable r1 && nullable r2
  | Alt r1 r2 => nullable r1 || nullable r2
  | Star _ => true
  end.

Fixpoint deriv (c : code_unit) (r : regex) : regex :=
  match r with
  | Void => Void
  | Eps => Void
  | Class p => if p c then Eps else Void
  | Cat r1 r2 =>
      if nullable r1
      then Alt (Cat (deriv c r1) r2) (deriv c r2)
      else Cat (deriv c r1) r2
  | Alt r1 r2 => Alt (deriv c r1) (deriv c r2)
  | Star r1 => Cat (deriv c r1) (Star r1)
  end.

(** [/^r$/.test(s)]. *)
Fixpoint full_match (r : regex) (s : jsstring) : bool :=
  match s with
  | [] => nullable r
  | c :: t => full_match (deriv c r) t
  end.

(** [/r$/.test(s)]: some suffix of [s] matches [r]; the search tries the
    start positions from left to right. *)
Fixpoint test_at_end (r : regex) (s : jsstring) : bool :=
  full_match r s ||
  match s with
  | [] => false
  | _ :: t => test_at_end r t
  end.

(** [.] without the [s] flag: any code unit but a line terminator. *)
Definition is_line_terminator (c : code_unit) : bool :=
  (c =? 10)%N || (c =? 13)%N || (c =? 8232)%N || (c =? 8233)%N.
Definition dot (c : code_unit) : bool := negb (is_line_terminator c).

(** *** The replacements of the source *)

(** [s.replace(/[^a-z0-9-]/g, '-')]. *)
Definition replace_outside_class (s : jsstring) : jsstring :=
  map (fun c => if in_class c then c else hyphen) s.

Definition starts_with_hyphen (s : jsstring) : bool :=
  match s with
  | [] => false
  | c :: _ => is_hyphen c
  end.

(** [s.replace(/-+/g, '-')]: of every run of hyphens one is kept. *)
Fixpoint collapse_hyphens (s : jsstring) : jsstring :=
  match s with
  | [] => []
  | c :: t =>
      if is_hyphen c && starts_with_hyphen t
      then collapse_hyphens t
      else c :: collapse_hyphens t
  end.

Definition strip_leading1 (s : jsstring) : jsstring :=
  match s with
  | [] => []
  | c :: t => if is_hyphen c then t else s
  end.

Fixpoint strip_trailing1 (s : jsstring) : jsstring :=
  match s with
  | [] => []
  | c :: t =>
      match t with
      | [] => if is_hyphen c then [] else [c]
      | _ :: _ => c :: strip_trailing1 t
      end
  end.

(** [s.replace(/^-|-$/g, '')]: one hyphen at the start and one at the end. *)
Definition strip_edges (s : jsstring) : jsstring :=
  strip_trailing1 (strip_leading1 s).

(** [s.replace(/-+$/g, '')]: the whole run of hyphens at the end. *)
Fixpoint strip_trailing_hyphens (s : jsstring) : jsstring :=
  match s with
  | [] => []
  | c :: t =>
      match strip_trailing_hyphens t with
      | [] => if is_hyphen c then [] else [c]
      | t' => c :: t'
      end
  end.

End JS.

Import JS.

(** ** Name derivation *)

Module NameBuilder.

(** [sanitize] (dify-on-aws-stack.ts, lines 43-48). *)
Definition sanitize (value : jsstring) : jsstring :=
  strip_edges (collapse_hyphens (replace_outside_class (toLowerCase value))).

Section Closures.

(** The two names of the constructor that [buildName] and
    [buildBucketName] close over. *)
Variable resourceNamePrefix : jsstring.
Variable bucketPrefix : jsstring.

(** [buildName] (lines 53-58). *)
Definition buildName (suffix : jsstring) (maxLength : Z) : jsstring :=
  let sanitizedSuffix := sanitize suffix in
  let combined :=
    sanitize (join (str "-")
                (filter nonempty [resourceNamePrefix; sanitizedSuffix])) in
  let truncated := strip_trailing_hyphens (slice0 combined maxLength) in
  slice0 (or_else truncated (or_else combined resourceNamePrefix)) maxLength.

(** The candidate of [buildBucketName] after lines 68-69: composed,
    cut at 63 code units, hyphens at the end removed. *)
Definition bucketCandidate (suffix : jsstring) : jsstring :=
  let base := or_else bucketPrefix resourceNamePrefix in
  strip_trailing_hyphens
    (slice0 (sanitize (join (str "-") (filter nonempty [base; suffix]))) 63).

(** [buildBucketName] (lines 66-74). *)
Definition buildBucketName (suffix : jsstring) : jsstring :=
  let candidate := bucketCandidate suffix in
  if (length candidate <? 3)%nat
  then slice0 (padEnd resourceNamePrefix 3 zero_digit) 63
  else candidate.

End Closures.

End NameBuilder.

(** ** The configuration *)

Module Props.

(** Modelled from the spec: the declaration of EnvironmentProps
    (lib/environment-props.ts) is not among the sources; the value of an
    additional environment variable is a string, a reference to a secret,
    or another kind of reference, as the test
    [typeof v != 'string' && 'secretName' in v] of the constructor
    presupposes. *)
Inductive EnvValue : Type :=
| Plain (text : jsstring)
| SecretRef (secretName : jsstring) (field : option jsstring)
| ParameterRef (parameterName : jsstring).

Record EnvVar : Type := {
  key : jsstring;
  value : EnvValue
}.

(** Modelled from the spec: the properties of DifyOnAwsStackProps that the
    constructor reads; an optional property that is left out is [None]. *)
Record t : Type := {
  vpcId : option jsstring;
  vpcIsolated : option bool;
  useNatInstance : option bool;
  useCloudFront : option bool;
  internalAlb : option bool;
  domainName : option jsstring;
  subDomain : option jsstring;
  setupEmail : option bool;
  additionalEnvironmentVariables : option (list EnvVar);
  environmentName : option jsstring
}.

(** A configuration that sets nothing. *)
Definition empty : t := {|
  vpcId := None; vpcIsolated := None; useNatInstance := None;
  useCloudFront := None; internalAlb := None;
  domainName := None; subDomain := None; setupEmail := None;
  additionalEnvironmentVariables := None; environmentName := None
|}.

End Props.

(** ** Truthiness and defaults of optional properties *)

Definition is_set {A : Type} (x : option A) : bool :=
  match x with
  | Some _ => true
  | None => false
  end.

Definition is_null {A : Type} (x : option A) : bool := negb (is_set x).

Definition truthy_string (x : option jsstring) : bool :=
  match x with
  | Some s => nonempty s
  | None => false
  end.

Definition truthy_bool (x : option bool) : bool :=
  match x with
  | Some b => b
  | None => false
  end.

Definition with_default {A : Type} (x : option A) (d : A) : A :=
  match x with
  | Some a => a
  | None => d
  end.

(** ** Errors and annotations of a construct *)

Inductive outcome (A : Type) : Type :=
| Throw (message : jsstring)
| Done (a : A).
Arguments Throw {A} message.
Arguments Done {A} a.

Record Annotation : Type := {
  ann_id : jsstring;
  ann_message : jsstring
}.

(** A computation of a constructor: it adds warnings to the annotations of
    the construct, and it may throw. *)
Definition M (A : Type) : Type :=
  list Annotation -> outcome (A * list Annotation).

Definition ret {A : Type} (a : A) : M A := fun w => Done (a, w).

Definition bind {A B : Type} (c : M A) (k : A -> M B) : M B :=
  fun w =>
    match c w with
    | Throw m => Throw m
    | Done (a, w') => k a w'
    end.

Definition throw {A : Type} (message : jsstring) : M A :=
  fun _ => Throw message.

Definition addWarningV2 (id message : jsstring) : M unit :=
  fun w => Done (tt, w ++ [{| ann_id := id; ann_message := message |}]).

Definition when (b : bool) (c : M unit) : M unit :=
  if b then c else ret tt.

Declare Scope construct_scope.
Delimit Scope construct_scope with construct.
Notation "c1 ;; c2" := (bind c1 (fun _ => c2))
  (at level 61, right associativity) : construct_scope.
Notation "x <- c1 ;; c2" := (bind c1 (fun x => c2))
  (at level 61, c1 at next level, right associativity) : construct_scope.

(** The outcome of a constructor run on a fresh construct. *)
Definition run {A : Type} (c : M A) : outcome (A * list Annotation) := c [].

(** ** The constructs that receive the prefix *)

(** [WebService] (lib/constructs/dify-services/web.ts, lines 34-37). *)
Module WebService.

Record t : Type := {
  taskFamily : jsstring;
  serviceName : jsstring;
  logGroupName : jsstring
}.

Definition new (resourceNamePrefix : jsstring) : t := {|
  taskFamily := slice0 (resourceNamePrefix ++ str "-web") 255;
  serviceName := slice0 (resourceNamePrefix ++ str "-web") 255;
  logGroupName := str "/aws/ecs/" ++ resourceNamePrefix ++ str "-web"
|}.

End WebService.

(** [Redis] (the construct after [WebService] in the listing, lines
    144-146). *)
Module Redis.

Record t : Type := {
  subnetGroupName : jsstring;
  replicationGroupId : jsstring;
  secretName : jsstring
}.

Definition new (resourceNamePrefix : jsstring) : t := {|
  subnetGroupName :=
    strip_trailing_hyphens
      (slice0 (resourceNamePrefix ++ str "-redis-subnets") 255);
  replicationGroupId :=
    strip_trailing_hyphens (slice0 (resourceNamePrefix ++ str "-redis") 40);
  secretName := resourceNamePrefix ++ str "/redis/auth"
|}.

End Redis.

(** ** The constructor of the stack *)

Module DifyOnAwsStack.

Import NameBuilder.

(** The load balancer the stack wires in (lines 155-172). *)
Inductive AlbKind : Type :=
| AlbWithCloudFront (subDomain : jsstring)
| Alb (internal : bool) (subDomain : jsstring).

Record t : Type := {
  accessLogBucketName : jsstring;
  clusterName : jsstring;
  storageBucketName : jsstring;
  alb : AlbKind;
  email : bool;
  redis : Redis.t;
  web : WebService.t
}.

(** [/-......$/]. *)
Definition secret_suffix_re : regex :=
  Cat (Class is_hyphen)
    (Cat (Class dot) (Cat (Class dot) (Cat (Class dot)
      (Cat (Class dot) (Cat (Class dot) (Class dot)))))).

(** A value that passed [typeof v != 'string' && 'secretName' in v]. *)
Record SecretValue : Type := {
  secretName : jsstring;
  field : option jsstring
}.

Definition secret_values (vs : list Props.EnvValue) : list SecretValue :=
  flat_map
    (fun v =>
       match v with
       | Props.SecretRef n f => [{| secretName := n; field := f |}]
       | _ => []
       end)
    vs.

Definition vpc_message (vpcId : jsstring) : jsstring :=
  str "When you import an existing VPC (" ++ vpcId
  ++ str "), you cannot set useNatInstance or vpcIsolated properties!".

Definition internalAlb_message : jsstring :=
  str "You cannot set internalAlb property when useCloudFront is true!".

Definition subDomain_message : jsstring :=
  str "You cannot set subDomain property without domainName!".

Definition setupEmail_message : jsstring :=
  str "You cannot enable setupEmailServer without domainName!".

Definition secretName_message (filtered : list jsstring) : jsstring :=
  str "secretName cannot ends with a hyphen and 6 characters! "
  ++ join (str ", ") filtered.

Definition albWithoutEncryption : Annotation := {|
  ann_id := str "Dify:albWithoutEncryption";
  ann_message :=
    str "You are exposing ALB to the Internet without TLS encryption. It is recommended to set useCloudFront: true or domainName property."
|}.

(** The message of the library (aws-cdk-lib, ContextProvider) for a lookup
    in a stack whose account or region is not resolved; 34 is the double
    quote. *)
Definition lookup_message (provider : jsstring) : jsstring :=
  str "Cannot retrieve value from context provider " ++ provider
  ++ str " since account/region are not specified at the stack level. Configure "
  ++ [34%N] ++ str "env" ++ [34%N]
  ++ str " with an account and region when you define your stack.See https://docs.aws.amazon.com/cdk/latest/guide/environments.html for more details.".

Section Constructor.

Variable props : Props.t.

(** [this.account] and [this.region]; [None] when the value is an
    unresolved token. *)
Variable account : option jsstring.
Variable region : option jsstring.

Local Open Scope construct_scope.

(** The defaults of the destructuring (lines 31-41). *)
Definition useCloudFront : bool := with_default (Props.useCloudFront props) true.
Definition internalAlb : bool := with_default (Props.internalAlb props) false.
Definition subDomain : jsstring :=
  with_default (Props.subDomain props) (str "dify").
Definition environmentNameInput : jsstring :=
  with_default (Props.environmentName props) (str "dev").

Definition environmentName : jsstring :=
  or_else (sanitize environmentNameInput) (str "env").

Definition resourceNamePrefix : jsstring :=
  or_else (sanitize (str "dify-" ++ environmentName)) (str "dify").

Definition accountSegment : option jsstring := option_map sanitize account.
Definition regionSegment : option jsstring := option_map sanitize region.

Definition bucketPrefix : jsstring :=
  sanitize
    (join (str "-")
       (map (fun part => with_default part [])
          (filter (fun part => (0 <? with_default (option_map (@length _) part) 0)%nat)
             [Some resourceNamePrefix; accountSegment; regionSegment]))).

(** [filtered] (lines 95-99). *)
Definition filtered : list jsstring :=
  map secretName
    (filter (fun v => test_at_end secret_suffix_re (secretName v))
       (secret_values
          (map Props.value
             (with_default (Props.additionalEnvironmentVariables props) [])))).

(** The checks of the configuration (lines 76-111). *)
Definition validate : M unit :=
  match Props.vpcId props with
  | Some vpcId =>
      when (nonempty vpcId
            && (is_set (Props.vpcIsolated props)
                || is_set (Props.useNatInstance props)))
        (throw (vpc_message vpcId))
  | None => ret tt
  end ;;
  when (useCloudFront && is_set (Props.internalAlb props))
    (throw internalAlb_message) ;;
  when (is_null (Props.domainName props) && is_set (Props.subDomain props))
    (throw subDomain_message) ;;
  when (truthy_bool (Props.setupEmail props)
        && is_null (Props.domainName props))
    (throw setupEmail_message) ;;
  when (0 <? length filtered)%nat (throw (secretName_message filtered)) ;;
  when (negb (truthy_bool (Props.useCloudFront props))
        && is_null (Props.domainName props)
        && negb internalAlb)
    (addWarningV2 (ann_id albWithoutEncryption)
       (ann_message albWithoutEncryption)).

(** The names and the parts the constructor hands on (lines 113-216). *)
Definition resources : t :=
  let hostedZone := truthy_string (Props.domainName props) in
  {|
    accessLogBucketName :=
      buildBucketName resourceNamePrefix bucketPrefix (str "access-logs");
    clusterName := buildName resourceNamePrefix (str "cluster") 255;
    storageBucketName :=
      buildBucketName resourceNamePrefix bucketPrefix (str "storage");
    alb :=
      if useCloudFront
      then AlbWithCloudFront subDomain
      else Alb internalAlb subDomain;
    email := hostedZone && truthy_bool (Props.setupEmail props);
    redis := Redis.new resourceNamePrefix;
    web := WebService.new resourceNamePrefix
  |}.

(** [HostedZone.fromLookup] (line 114) belongs to the library: it asks the
    context of the stack, and throws when the account or the region of the
    stack is an unresolved token. *)
Definition hostedZone_fromLookup : M unit :=
  when (is_null account || is_null region)
    (throw (lookup_message (str "hosted-zone"))).

(** The constructor (lines 28-216): the checks, the lookup of the hosted
    zone when there is a [domainName], then the resources.  The constructor
    of the base class and [createVpc] (lib/constructs/vpc.ts) are not
    among the sources and the constructs that follow are the library's:
    they are taken to return. *)
Definition new : M t :=
  validate ;;
  when (truthy_string (Props.domainName props)) hostedZone_fromLookup ;;
  ret resources.

End Constructor.

End DifyOnAwsStack.

(** ** Predicates of the specification *)

Module Spec.

Import NameBuilder DifyOnAwsStack.

(** The pattern of a sanitized token, [/^[a-z0-9]+(-[a-z0-9]+)*$/]. *)
Definition token_re : regex :=
  Cat (Plus (Class is_alnum))
      (Star (Cat (Class is_hyphen) (Plus (Class is_alnum)))).

(** A sanitized token, by its shape: letters and digits, with single
    hyphens between them only. *)
Inductive token : jsstring -> Prop :=
| token_one c : is_alnum c = true -> token [c]
| token_cons c s : is_alnum c = true -> token s -> token (c :: s)
| token_sep c s : is_alnum c = true -> token s -> token (c :: hyphen :: s).

Fixpoint ends_with_hyphen (s : jsstring) : bool :=
  match s with
  | [] => false
  | c :: t =>
      match t with
      | [] => is_hyphen c
      | _ :: _ => ends_with_hyphen t
      end
  end.

Fixpoint no_double_hyphen (s : jsstring) : bool :=
  match s with
  | [] => true
  | c :: t => negb (is_hyphen c && starts_with_hyphen t) && no_double_hyphen t
  end.

Definition all_in_class (s : jsstring) : Prop :=
  Forall (fun c => in_class c = true) s.

(** What sanitize leaves of a string that follows a token. *)
Definition sanitize_rest (x : jsstring) : jsstring :=
  strip_trailing1 (collapse_hyphens (replace_outside_class (toLowerCase x))).

(** The invariant of a resource name for a ceiling [maxLength]. *)
Definition resource_name_ok (maxLength : nat) (name : jsstring) : Prop :=
  (length name <= maxLength)%nat /\ name <> [] /\ ends_with_hyphen name = false.

(** An identifier that ends in a hyphen and six more code units, none of
    them a line terminator. *)
Definition ends_with_hyphen_and_six (s : jsstring) : Prop :=
  exists pre tail,
    s = pre ++ hyphen :: tail /\ length tail = 6%nat /\
    Forall (fun c => is_line_terminator c = false) tail.

(** The same without the condition on line terminators. *)
Definition ends_with_hyphen_and_six_any (s : jsstring) : Prop :=
  exists pre tail, s = pre ++ hyphen :: tail /\ length tail = 6%nat.

(** The secret names of a configuration that end so. *)
Definition offending (props : Props.t) (name : jsstring) : Prop :=
  (exists k f,
      In {| Props.key := k; Props.value := Props.SecretRef name f |}
        (with_default (Props.additionalEnvironmentVariables props) []))
  /\ ends_with_hyphen_and_six name.

(** The conditions of the five rules, each on its own. *)
Definition vpc_conflict (props : Props.t) : bool :=
  truthy_string (Props.vpcId props)
  && (is_set (Props.vpcIsolated props) || is_set (Props.useNatInstance props)).

Definition internalAlb_conflict (props : Props.t) : bool :=
  useCloudFront props && is_set (Props.internalAlb props).

Definition subDomain_conflict (props : Props.t) : bool :=
  is_null (Props.domainName props) && is_set (Props.subDomain props).

Definition setupEmail_conflict (props : Props.t) : bool :=
  truthy_bool (Props.setupEmail props) && is_null (Props.domainName props).

Definition secretName_conflict (props : Props.t) : bool :=
  (0 <? length (filtered props))%nat.

(** The messages of all the rules a configuration violates, in the order
    of the source: what a validator that checks every rule independently
    would report. *)
Definition independent_violations (props : Props.t) : list jsstring :=
  (if vpc_conflict props
   then [vpc_message (with_default (Props.vpcId props) [])] else [])
  ++ (if internalAlb_conflict props then [internalAlb_message] else [])
  ++ (if subDomain_conflict props then [subDomain_message] else [])
  ++ (if setupEmail_conflict props then [setupEmail_message] else [])
  ++ (if secretName_conflict props
      then [secretName_message (filtered props)] else []).

(** The condition of the advisory (line 106). *)
Definition advisory_due (props : Props.t) : bool :=
  negb (truthy_bool (Props.useCloudFront props))
  && is_null (Props.domainName props)
  && negb (internalAlb props).

Definition advisories (props : Props.t) : list Annotation :=
  if advisory_due props then [albWithoutEncryption] else [].

(** The configuration of the stacks the application creates, with an
    environment name of 249 letters. *)
Definition long_environment : Props.t := {|
  Props.vpcId := None; Props.vpcIsolated := None; Props.useNatInstance := None;
  Props.useCloudFront := None; Props.internalAlb := None;
  Props.domainName := None; Props.subDomain := None; Props.setupEmail := None;
  Props.additionalEnvironmentVariables := None;
  Props.environmentName := Some (repeat 97%N 249)
|}.

(** *** Configurations of the examples *)

Definition secret_variable (name : jsstring) : Props.EnvVar := {|
  Props.key := str "API_KEY";
  Props.value := Props.SecretRef name None
|}.

(** [vpcId] set and [useNatInstance: false]. *)
Definition vpc_with_nat_disabled : Props.t := {|
  Props.vpcId := Some (str "vpc-0abc");
  Props.vpcIsolated := None;
  Props.useNatInstance := Some false;
  Props.useCloudFront := None;
  Props.internalAlb := None;
  Props.domainName := None;
  Props.subDomain := None;
  Props.setupEmail := None;
  Props.additionalEnvironmentVariables := None;
  Props.environmentName := None
|}.

(** [vpcId] set and [useNatInstance: true]. *)
Definition vpc_with_nat_enabled : Props.t := {|
  Props.vpcId := Some (str "vpc-0abc");
  Props.vpcIsolated := None;
  Props.useNatInstance := Some true;
  Props.useCloudFront := None;
  Props.internalAlb := None;
  Props.domainName := None;
  Props.subDomain := None;
  Props.setupEmail := None;
  Props.additionalEnvironmentVariables := None;
  Props.environmentName := None
|}.

(** [useCloudFront: true] and [internalAlb: false]. *)
Definition cdn_with_public_alb : Props.t := {|
  Props.vpcId := None;
  Props.vpcIsolated := None;
  Props.useNatInstance := None;
  Props.useCloudFront := Some true;
  Props.internalAlb := Some false;
  Props.domainName := None;
  Props.subDomain := None;
  Props.setupEmail := None;
  Props.additionalEnvironmentVariables := None;
  Props.environmentName := None
|}.

(** [subDomain] without [domainName], and a secret name that ends in a
    hyphen and six characters. *)
Definition subdomain_and_secret : Props.t := {|
  Props.vpcId := None;
  Props.vpcIsolated := None;
  Props.useNatInstance := None;
  Props.useCloudFront := None;
  Props.internalAlb := None;
  Props.domainName := None;
  Props.subDomain := Some (str "app");
  Props.setupEmail := None;
  Props.additionalEnvironmentVariables := Some [secret_variable (str "mysecret-ab12cd")];
  Props.environmentName := None
|}.

(** An imported VPC with [useNatInstance: true], and such a secret name. *)
Definition vpc_and_secret : Props.t := {|
  Props.vpcId := Some (str "vpc-0abc");
  Props.vpcIsolated := None;
  Props.useNatInstance := Some true;
  Props.useCloudFront := None;
  Props.internalAlb := None;
  Props.domainName := None;
  Props.subDomain := None;
  Props.setupEmail := None;
  Props.additionalEnvironmentVariables := Some [secret_variable (str "mysecret-ab12cd")];
  Props.environmentName := None
|}.

(** Two such secret names among other variables. *)
Definition two_secrets : Props.t := {|
  Props.vpcId := None;
  Props.vpcIsolated := None;
  Props.useNatInstance := None;
  Props.useCloudFront := Some true;
  Props.internalAlb := None;
  Props.domainName := None;
  Props.subDomain := None;
  Props.setupEmail := None;
  Props.additionalEnvironmentVariables := Some
      [secret_variable (str "mysecret-ab12cd");
       {| Props.key := str "MODE"; Props.value := Props.Plain (str "x-abcdef") |};
       secret_variable (str "plain");
       secret_variable (str "other-123456")];
  Props.environmentName := None
|}.

(** A secret name with a line feed among the six code units after its
    last hyphen. *)
Definition newline_name : jsstring := str "s-ab" ++ [10%N] ++ str "cde".

(** A configuration whose only variable refers to that secret. *)
Definition newline_secret : Props.t := {|
  Props.vpcId := None;
  Props.vpcIsolated := None;
  Props.useNatInstance := None;
  Props.useCloudFront := None;
  Props.internalAlb := None;
  Props.domainName := None;
  Props.subDomain := None;
  Props.setupEmail := None;
  Props.additionalEnvironmentVariables := Some [secret_variable newline_name];
  Props.environmentName := None
|}.

(** [useCloudFront: false], no [domainName], [internalAlb: false]. *)
Definition public_plain_alb : Props.t := {|
  Props.vpcId := None;
  Props.vpcIsolated := None;
  Props.useNatInstance := None;
  Props.useCloudFront := Some false;
  Props.internalAlb := Some false;
  Props.domainName := None;
  Props.subDomain := None;
  Props.setupEmail := None;
  Props.additionalEnvironmentVariables := None;
  Props.environmentName := None
|}.

End Spec.

Import NameBuilder Spec.

(** ** The parameter of the broker URL *)

(** The name of the parameter [Redis] stores the broker URL under (line 191
    of the listing). *)
Module RedisParameter.

Definition slash : code_unit := 47%N.
Definition is_slash (c : code_unit) : bool := (c =? slash)%N.

Definition starts_with_slash (s : jsstring) : bool :=
  match s with
  | [] => false
  | c :: _ => is_slash c
  end.

(** [s.replace(/\/{2,}/g, '/')]: of every run of two or more slashes one
    is kept. *)
Fixpoint collapse_slashes (s : jsstring) : jsstring :=
  match s with
  | [] => []
  | c :: t =>
      if is_slash c && starts_with_slash t
      then collapse_slashes t
      else c :: collapse_slashes t
  end.

Definition parameterName (resourceNamePrefix : jsstring) : jsstring :=
  collapse_slashes
    (str "/dify/" ++ resourceNamePrefix ++ str "/redis/broker-url").

Fixpoint no_double_slash (s : jsstring) : bool :=
  match s with
  | [] => true
  | c :: t => negb (is_slash c && starts_with_slash t) && no_double_slash t
  end.

End RedisParameter.

(** ** The application *)

(** The names of the stacks the application creates (bin/cdk.ts, lines
    226-243 of the listing). *)
Module App.

(** Modelled from the spec: the properties of EnvironmentProps that the
    application reads before it creates the stacks. *)
Record EnvironmentProps : Type := {
  useCloudFront : option bool;
  domainName : option jsstring;
  allowedIPv4Cidrs : option (list jsstring);
  allowedIPv6Cidrs : option (list jsstring);
  subDomain : option jsstring
}.

(** [app.node.tryGetContext('env') ?? 'dev']. *)
Definition envName (context : option jsstring) : jsstring :=
  with_default context (str "dev").

(** The condition under which the stack in us-east-1 is created
    (line 229): an array is truthy also when it is empty. *)
Definition needsUsEast1 (props : EnvironmentProps) : bool :=
  with_default (useCloudFront props) true
  && (truthy_string (domainName props)
      || is_set (allowedIPv4Cidrs props)
      || is_set (allowedIPv6Cidrs props)).

Definition usEastStackName
  (envName : jsstring) (props : EnvironmentProps) : jsstring :=
  str "DifyOnAwsUsEast1Stack-" ++ envName
  ++ (if truthy_string (subDomain props)
      then str "-" ++ with_default (subDomain props) []
      else []).

Definition stackName (envName : jsstring) : jsstring :=
  str "DifyOnAwsStack-" ++ envName.

End App.

(** *** Further predicates and configurations *)

Module Spec2.

Definition no_alnum (s : jsstring) : Prop :=
  Forall (fun c => is_alnum c = false) s.

(** [s] is the start of [t]. *)
Definition prefix_of (s t : jsstring) : Prop := exists rest, t = s ++ rest.

(** What [buildName] joins before it cuts. *)
Definition joined_name (resourceNamePrefix suffix : jsstring) : jsstring :=
  join (str "-")
    (filter nonempty [resourceNamePrefix; NameBuilder.sanitize suffix]).

(** A segment of the bucket prefix: empty when the value is unresolved. *)
Definition segment (x : option jsstring) : jsstring :=
  with_default (option_map NameBuilder.sanitize x) [].

(** [domainName] and [setupEmail: true]. *)
Definition domain_with_email : Props.t := {|
  Props.vpcId := None; Props.vpcIsolated := None; Props.useNatInstance := None;
  Props.useCloudFront := None; Props.internalAlb := None;
  Props.domainName := Some (str "example.com");
  Props.subDomain := Some (str "app");
  Props.setupEmail := Some true;
  Props.additionalEnvironmentVariables := None;
  Props.environmentName := None
|}.

(** [domainName: ''] and [setupEmail: true]. *)
Definition empty_domain_with_email : Props.t := {|
  Props.vpcId := None; Props.vpcIsolated := None; Props.useNatInstance := None;
  Props.useCloudFront := None; Props.internalAlb := None;
  Props.domainName := Some [];
  Props.subDomain := None;
  Props.setupEmail := Some true;
  Props.additionalEnvironmentVariables := None;
  Props.environmentName := None
|}.

(** [useCloudFront] and [domainName] left out, [internalAlb: false]. *)
Definition default_cdn_public_alb : Props.t := {|
  Props.vpcId := None; Props.vpcIsolated := None; Props.useNatInstance := None;
  Props.useCloudFront := None; Props.internalAlb := Some false;
  Props.domainName := None; Props.subDomain := None; Props.setupEmail := None;
  Props.additionalEnvironmentVariables := None;
  Props.environmentName := None
|}.

(** The names of the secret references of a configuration, in the order of
    the configuration. *)
Definition secret_names (props : Props.t) : list jsstring :=
  flat_map
    (fun var =>
       match Props.value var with
       | Props.SecretRef name _ => [name]
       | _ => []
       end)
    (with_default (Props.additionalEnvironmentVariables props) []).

(** The last seven code units are a hyphen and six more. *)
Definition ends_with_hyphen_and_six_b (s : jsstring) : bool :=
  match rev s with
  | _ :: _ :: _ :: _ :: _ :: _ :: h :: _ => is_hyphen h
  | _ => false
  end.

(** The secret names that end in a hyphen and six characters, in the order
    of the configuration. *)
Definition offending_names (props : Props.t) : list jsstring :=
  filter ends_with_hyphen_and_six_b (secret_names props).

Definition no_line_terminator (s : jsstring) : bool :=
  forallb (fun c => negb (is_line_terminator c)) s.

(** No secret name of the configuration holds a line terminator. *)
Definition secret_names_plain (props : Props.t) : bool :=
  forallb no_line_terminator (secret_names props).

(** The text the error of the secret names starts with (line 102). *)
Definition secretName_header : jsstring :=
  str "secretName cannot ends with a hyphen and 6 characters! ".

End Spec2.

Import Spec2.

Unset Implicit Arguments.

(** * Proofs *)

(** ** Regular expressions: the derivative matcher is the matching relation *)

Lemma nullable_Matches (r : regex) : nullable r = true <-> Matches r [].
Proof.
  split.
  - induction r; simpl; intro H; try discriminate.
    + constructor.
    + apply andb_true_iff in H as [H1 H2].
      change (@nil code_unit) with (@nil code_unit ++ []).
      constructor; auto.
    + apply orb_true_iff in H as [H | H];
        [apply MAltL | apply MAltR]; auto.
    + constructor.
  - intro H. remember [] as s eqn:Es.
    induction H; simpl; try discriminate; auto.
    + apply app_eq_nil in Es as [-> ->].
      rewrite IHMatches1, IHMatches2; auto.
    + rewrite IHMatches; auto.
    + rewrite IHMatches; auto using orb_true_r.
Qed.

Lemma deriv_sound (c : code_unit) (r : regex) :
  forall s, Matches (deriv c r) s -> Matches r (c :: s).
Proof.
  induction r; simpl; intros s H.
  - inversion H.
  - inversion H.
  - destruct (b c) eqn:E; inversion H; subst. constructor; exact E.
  - destruct (nullable r1) eqn:E.
    + inversion H; subst.
      * match goal with
        | M : Matches (Cat _ _) _ |- _ => inversion M; subst
        end.
        change (c :: s1 ++ s2) with ((c :: s1) ++ s2).
        constructor; auto.
      * change (c :: s) with ([] ++ c :: s).
        constructor; auto. apply nullable_Matches; exact E.
    + inversion H; subst.
      change (c :: s1 ++ s2) with ((c :: s1) ++ s2).
      constructor; auto.
  - inversion H; subst; [apply MAltL | apply MAltR]; auto.
  - inversion H; subst.
    change (c :: s1 ++ s2) with ((c :: s1) ++ s2).
    constructor; auto.
Qed.

Lemma deriv_complete (r : regex) (s' : jsstring) :
  Matches r s' -> forall a u, s' = a :: u -> Matches (deriv a r) u.
Proof.
  induction 1; intros a u E; simpl; try discriminate.
  - injection E as -> <-. rewrite H. constructor.
  - destruct s1 as [|c1 s1]; simpl in E.
    + subst s2.
      assert (N1 : nullable r1 = true) by (apply nullable_Matches; assumption).
      rewrite N1. apply MAltR. apply IHMatches2; reflexivity.
    + injection E as -> <-.
      destruct (nullable r1).
      * apply MAltL. constructor; auto.
      * constructor; auto.
  - apply MAltL; auto.
  - apply MAltR; auto.
  - destruct s1 as [|c1 s1]; simpl in E.
    + subst s2. apply (IHMatches2 a u eq_refl).
    + injection E as -> <-.
      constructor; auto.
Qed.

Lemma full_match_Matches (r : regex) (s : jsstring) :
  full_match r s = true <-> Matches r s.
Proof.
  revert r. induction s as [|c t IH]; intro r; simpl.
  - apply nullable_Matches.
  - rewrite IH. split.
    + apply deriv_sound.
    + intro H. apply (deriv_complete r (c :: t) H c t eq_refl).
Qed.

(** ** Character classes *)

Ltac class_to_prop H :=
  unfold in_class, is_alnum, is_lower, is_digit, is_hyphen, hyphen in H;
  repeat rewrite ?orb_true_iff, ?andb_true_iff, ?N.leb_le, ?N.eqb_eq in H.

Ltac split_tests :=
  repeat match goal with
    | |- context [N.leb ?a ?b] => destruct (N.leb_spec a b)
    | |- context [N.eqb ?a ?b] => destruct (N.eqb_spec a b)
    end.

Lemma is_hyphen_eq (c : code_unit) : is_hyphen c = true -> c = hyphen.
Proof. unfold is_hyphen. apply N.eqb_eq. Qed.

Lemma alnum_not_hyphen (c : code_unit) :
  is_alnum c = true -> is_hyphen c = false.
Proof.
  intro H. class_to_prop H.
  unfold is_hyphen, hyphen. apply N.eqb_neq. lia.
Qed.

Lemma alnum_in_class (c : code_unit) : is_alnum c = true -> in_class c = true.
Proof. intro H. unfold in_class. rewrite H. reflexivity. Qed.

Lemma in_class_not_hyphen (c : code_unit) :
  in_class c = true -> is_hyphen c = false -> is_alnum c = true.
Proof.
  unfold in_class. intros H N. rewrite N, orb_false_r in H. exact H.
Qed.

Lemma lower_unit_in_class (c : code_unit) :
  in_class c = true -> lower_unit c = [c].
Proof.
  intro H. class_to_prop H. unfold lower_unit.
  split_tests; simpl; try reflexivity; exfalso; lia.
Qed.

(** ** The steps of sanitize *)

Lemma toLowerCase_app (s x : jsstring) :
  toLowerCase (s ++ x) = toLowerCase s ++ toLowerCase x.
Proof. apply flat_map_app. Qed.

Lemma toLowerCase_in_class (s : jsstring) :
  all_in_class s -> toLowerCase s = s.
Proof.
  induction 1 as [|c t Hc _ IH]; simpl.
  - reflexivity.
  - change (toLowerCase (c :: t)) with (lower_unit c ++ toLowerCase t).
    rewrite (lower_unit_in_class c Hc), IH. reflexivity.
Qed.

Lemma replace_outside_class_app (s x : jsstring) :
  replace_outside_class (s ++ x)
  = replace_outside_class s ++ replace_outside_class x.
Proof. apply map_app. Qed.

Lemma replace_outside_class_in_class (s : jsstring) :
  all_in_class (replace_outside_class s).
Proof.
  induction s as [|c t IH]; simpl; constructor; auto.
  destruct (in_class c) eqn:E; [exact E | reflexivity].
Qed.

Lemma replace_outside_class_id (s : jsstring) :
  all_in_class s -> replace_outside_class s = s.
Proof.
  induction 1 as [|c t Hc _ IH]; simpl.
  - reflexivity.
  - change (replace_outside_class (c :: t))
      with ((if in_class c then c else hyphen) :: replace_outside_class t).
    rewrite Hc, IH. reflexivity.
Qed.

Lemma starts_with_hyphen_collapse (s : jsstring) :
  starts_with_hyphen (collapse_hyphens s) = starts_with_hyphen s.
Proof.
  induction s as [|c t IH]; simpl.
  - reflexivity.
  - destruct (is_hyphen c) eqn:Ec; simpl.
    + destruct (starts_with_hyphen t) eqn:Et; simpl.
      * congruence.
      * congruence.
    + congruence.
Qed.

Lemma collapse_hyphens_no_double (s : jsstring) :
  no_double_hyphen (collapse_hyphens s) = true.
Proof.
  induction s as [|c t IH]; simpl.
  - reflexivity.
  - destruct (is_hyphen c && starts_with_hyphen t) eqn:E.
    + exact IH.
    + simpl. rewrite starts_with_hyphen_collapse, E, IH. reflexivity.
Qed.

Lemma collapse_hyphens_in_class (s : jsstring) :
  all_in_class s -> all_in_class (collapse_hyphens s).
Proof.
  induction 1 as [|c t Hc _ IH]; simpl.
  - constructor.
  - destruct (is_hyphen c && starts_with_hyphen t).
    + exact IH.
    + constructor; assumption.
Qed.

Lemma strip_leading1_in_class (s : jsstring) :
  all_in_class s -> all_in_class (strip_leading1 s).
Proof.
  intro H. destruct H as [|c t Hc Ht]; simpl.
  - constructor.
  - destruct (is_hyphen c); [exact Ht | constructor; assumption].
Qed.

Lemma strip_leading1_shape (s : jsstring) :
  no_double_hyphen s = true ->
  no_double_hyphen (strip_leading1 s) = true
  /\ starts_with_hyphen (strip_leading1 s) = false.
Proof.
  destruct s as [|c t]; simpl.
  - auto.
  - intro H. apply andb_true_iff in H as [H1 H2].
    destruct (is_hyphen c) eqn:Ec; simpl in *.
    + split; [exact H2 |].
      destruct (starts_with_hyphen t); [discriminate | reflexivity].
    + rewrite Ec. simpl. auto.
Qed.

Lemma strip_trailing1_in_class (s : jsstring) :
  all_in_class s -> all_in_class (strip_trailing1 s).
Proof.
  induction 1 as [|c t Hc Ht IH]; simpl.
  - constructor.
  - destruct t as [|d t'].
    + destruct (is_hyphen c); constructor; auto.
    + constructor; assumption.
Qed.

Lemma strip_trailing1_start (s : jsstring) :
  starts_with_hyphen s = false -> starts_with_hyphen (strip_trailing1 s) = false.
Proof.
  destruct s as [|c t]; simpl; [reflexivity |].
  intro H. destruct t as [|d t']; simpl; rewrite ?H; auto.
Qed.

Lemma strip_trailing1_shape (s : jsstring) :
  no_double_hyphen s = true ->
  no_double_hyphen (strip_trailing1 s) = true
  /\ ends_with_hyphen (strip_trailing1 s) = false.
Proof.
  induction s as [|c t IH]; simpl.
  - auto.
  - intro H. apply andb_true_iff in H as [H1 H2].
    destruct t as [|d t'].
    + destruct (is_hyphen c) eqn:Ec; simpl; rewrite ?Ec; auto.
    + specialize (IH H2) as [IH1 IH2].
      remember (d :: t') as t eqn:Et.
      assert (St : starts_with_hyphen (strip_trailing1 t) = true ->
                   starts_with_hyphen t = true).
      { subst t. simpl. destruct t' as [|e t''].
        - destruct (is_hyphen d) eqn:Ed; simpl; congruence.
        - simpl. auto. }
      split.
      * simpl. rewrite IH1, andb_true_r.
        destruct (is_hyphen c) eqn:Ec; simpl; [| reflexivity].
        destruct (starts_with_hyphen (strip_trailing1 t)) eqn:Es;
          [| reflexivity].
        rewrite (St eq_refl) in H1. discriminate.
      * simpl. destruct (strip_trailing1 t) as [|e u] eqn:Eu.
        -- subst t. simpl in Eu. simpl in H1.
           destruct t' as [|e t''].
           ++ destruct (is_hyphen d) eqn:Ed; [| discriminate].
              rewrite andb_true_r in H1.
              destruct (is_hyphen c); [discriminate | reflexivity].
           ++ discriminate.
        -- exact IH2.
Qed.

(** ** Tokens *)

Lemma token_head (s : jsstring) :
  token s -> exists c t, s = c :: t /\ is_alnum c = true.
Proof. destruct 1; eauto. Qed.

Lemma token_nonempty (s : jsstring) : token s -> s <> [].
Proof. destruct 1; discriminate. Qed.

Lemma token_in_class (s : jsstring) : token s -> all_in_class s.
Proof.
  induction 1; repeat constructor; auto using alnum_in_class.
Qed.

Lemma token_start (s : jsstring) : token s -> starts_with_hyphen s = false.
Proof. destruct 1; simpl; auto using alnum_not_hyphen. Qed.

Lemma token_end (s : jsstring) : token s -> ends_with_hyphen s = false.
Proof.
  induction 1 as [c Hc | c s Hc Hs IH | c s Hc Hs IH]; simpl.
  - auto using alnum_not_hyphen.
  - destruct (token_head s Hs) as (d & t & -> & _). exact IH.
  - destruct (token_head s Hs) as (d & t & -> & _). exact IH.
Qed.

(** A string over the class without a hyphen at either end and without two
    hyphens in a row is empty or a token. *)
Lemma shape_token (s : jsstring) :
  all_in_class s -> no_double_hyphen s = true -> ends_with_hyphen s = false ->
  (starts_with_hyphen s = false -> s = [] \/ token s)
  /\ (starts_with_hyphen s = true -> exists t, s = hyphen :: t /\ token t).
Proof.
  induction 1 as [|c t Hc Ht IH]; intros Hd He.
  - split; [auto | discriminate].
  - simpl in Hd. apply andb_true_iff in Hd as [Hd1 Hd2].
    assert (Het : ends_with_hyphen t = false).
    { destruct t; [reflexivity | exact He]. }
    specialize (IH Hd2 Het) as [IH1 IH2].
    simpl. destruct (is_hyphen c) eqn:Ec.
    + split; [discriminate | intros _].
      simpl in Hd1.
      destruct (starts_with_hyphen t) eqn:Es; [discriminate |].
      exists t. split.
      * f_equal. apply is_hyphen_eq. exact Ec.
      * destruct (IH1 eq_refl) as [-> | Tk]; [| exact Tk].
        simpl in He. congruence.
    + split; [intros _ | discriminate].
      right.
      pose proof (in_class_not_hyphen c Hc Ec) as Ha.
      destruct (starts_with_hyphen t) eqn:Es.
      * destruct (IH2 eq_refl) as (u & -> & Tk).
        apply token_sep; assumption.
      * destruct (IH1 eq_refl) as [-> | Tk].
        -- apply token_one; assumption.
        -- apply token_cons; assumption.
Qed.

(** Whatever the conversion to lower case yields, the three replacements
    leave the empty string or a token. *)
Lemma replacements_in_class (x : jsstring) :
  all_in_class (strip_edges (collapse_hyphens (replace_outside_class x))).
Proof.
  unfold strip_edges.
  apply strip_trailing1_in_class, strip_leading1_in_class,
    collapse_hyphens_in_class, replace_outside_class_in_class.
Qed.

Lemma replacements_token (x : jsstring) :
  let y := strip_edges (collapse_hyphens (replace_outside_class x)) in
  y = [] \/ token y.
Proof.
  intro y. pose proof (replacements_in_class x) as Hc. fold y in Hc.
  unfold strip_edges in *.
  set (u := collapse_hyphens (replace_outside_class x)) in *.
  destruct (strip_leading1_shape u (collapse_hyphens_no_double _)) as [L1 L2].
  destruct (strip_trailing1_shape _ L1) as [T1 T2].
  apply (shape_token _ Hc T1 T2).
  apply strip_trailing1_start. exact L2.
Qed.

Lemma sanitize_in_class (s : jsstring) : all_in_class (sanitize s).
Proof. apply replacements_in_class. Qed.

Lemma sanitize_token (s : jsstring) : sanitize s = [] \/ token (sanitize s).
Proof. apply (replacements_token (toLowerCase s)). Qed.

Lemma token_Matches (s : jsstring) : token s -> Matches token_re s.
Proof.
  unfold token_re, Plus.
  induction 1 as [c Hc | c s Hc Hs IH | c s Hc Hs IH].
  - change [c] with (([c] ++ []) ++ []).
    repeat constructor; assumption.
  - inversion IH as [| | r1 r2 s1 s2 M1 M2 | | | |]; subst.
    change (c :: s1 ++ s2) with (([c] ++ s1) ++ s2).
    constructor; [| exact M2].
    constructor; [constructor; exact Hc |].
    inversion M1 as [| | r1 r2 u1 u2 N1 N2 | | | |]; subst.
    constructor; assumption.
  - inversion IH as [| | r1 r2 s1 s2 M1 M2 | | | |]; subst.
    change (c :: hyphen :: s1 ++ s2)
      with (([c] ++ []) ++ (([hyphen] ++ s1) ++ s2)).
    constructor.
    + repeat constructor; exact Hc.
    + constructor; [| exact M2].
      constructor; [constructor; reflexivity | exact M1].
Qed.

(** A token in front survives sanitize as it is. *)
Lemma collapse_hyphens_token_app (t z : jsstring) :
  token t -> collapse_hyphens (t ++ z) = t ++ collapse_hyphens z.
Proof.
  induction 1 as [c Hc | c s Hc Hs IH | c s Hc Hs IH]; simpl.
  - rewrite (alnum_not_hyphen c Hc). reflexivity.
  - rewrite (alnum_not_hyphen c Hc), IH. reflexivity.
  - rewrite (alnum_not_hyphen c Hc). simpl.
    destruct (token_head s Hs) as (d & u & E & Hd).
    rewrite IH. rewrite E. simpl.
    rewrite (alnum_not_hyphen d Hd). reflexivity.
Qed.

Lemma strip_trailing1_token_app (t z : jsstring) :
  token t -> strip_trailing1 (t ++ z) = t ++ strip_trailing1 z.
Proof.
  induction 1 as [c Hc | c s Hc Hs IH | c s Hc Hs IH].
  - simpl. destruct z; [| reflexivity].
    rewrite (alnum_not_hyphen c Hc). reflexivity.
  - destruct (token_head s Hs) as (d & u & E & Hd).
    transitivity (c :: strip_trailing1 (s ++ z));
      [rewrite E; reflexivity | rewrite IH; reflexivity].
  - destruct (token_head s Hs) as (d & u & E & Hd).
    transitivity (c :: hyphen :: strip_trailing1 (s ++ z));
      [rewrite E; reflexivity | rewrite IH; reflexivity].
Qed.

Lemma sanitize_token_app (t x : jsstring) :
  token t -> sanitize (t ++ x) = t ++ sanitize_rest x.
Proof.
  intro Tk. unfold sanitize, sanitize_rest, strip_edges.
  rewrite toLowerCase_app, (toLowerCase_in_class t (token_in_class t Tk)).
  rewrite replace_outside_class_app,
    (replace_outside_class_id t (token_in_class t Tk)).
  rewrite (collapse_hyphens_token_app t _ Tk).
  destruct (token_head t Tk) as (c & u & E & Hc).
  assert (L : forall z, strip_leading1 (t ++ z) = t ++ z).
  { intro z. rewrite E. simpl. rewrite (alnum_not_hyphen c Hc). reflexivity. }
  rewrite L. apply strip_trailing1_token_app. exact Tk.
Qed.

Lemma sanitize_token_id (t : jsstring) : token t -> sanitize t = t.
Proof.
  intro Tk. rewrite <- (app_nil_r t) at 1.
  rewrite (sanitize_token_app t [] Tk). apply app_nil_r.
Qed.

Lemma sanitize_idempotent (s : jsstring) : sanitize (sanitize s) = sanitize s.
Proof.
  destruct (sanitize_token s) as [E | Tk].
  - rewrite E. reflexivity.
  - apply sanitize_token_id. exact Tk.
Qed.

(** C4: for every string [s], [sanitize s] matches
    [^[a-z0-9]+(-[a-z0-9]+)*$] or is the empty string, and
    [sanitize "My-App!!"] is ["my-app"].  [sanitize] is a total function:
    there is no input on which it raises an error. *)
Theorem C4_sanitize_token_or_empty :
  (forall s : jsstring,
      full_match token_re (sanitize s) = true \/ sanitize s = [])
  /\ sanitize (str "My-App!!") = str "my-app".
Proof.
  split.
  - intro s. destruct (sanitize_token s) as [E | Tk].
    + right. exact E.
    + left. apply full_match_Matches, token_Matches. exact Tk.
  - reflexivity.
Qed.

(** ** Cutting and stripping *)

Lemma slice0_length (s : jsstring) (n : Z) :
  (0 <= n)%Z -> (Z.of_nat (length (slice0 s n)) <= n)%Z.
Proof.
  intro H. unfold slice0.
  destruct (Z.ltb_spec n 0); [lia |].
  rewrite length_firstn. lia.
Qed.

Lemma slice0_all (s : jsstring) (n : Z) :
  (Z.of_nat (length s) <= n)%Z -> slice0 s n = s.
Proof.
  intro H. unfold slice0.
  destruct (Z.ltb_spec n 0); [lia |].
  apply firstn_all2. lia.
Qed.

Lemma slice0_cons (c : code_unit) (s : jsstring) (n : Z) :
  (1 <= n)%Z -> slice0 (c :: s) n = c :: slice0 s (n - 1).
Proof.
  intro H. unfold slice0.
  destruct (Z.ltb_spec n 0); [lia |].
  destruct (Z.ltb_spec (n - 1) 0); [lia |].
  replace (Z.to_nat n) with (S (Z.to_nat (n - 1))) by lia.
  reflexivity.
Qed.

Lemma firstn_in_class (n : nat) (s : jsstring) :
  all_in_class s -> all_in_class (firstn n s).
Proof.
  intro H. revert n.
  induction H as [|c t Hc Ht IH]; intros [|n]; simpl; constructor;
    [exact Hc | apply IH].
Qed.

Lemma slice0_in_class (s : jsstring) (n : Z) :
  all_in_class s -> all_in_class (slice0 s n).
Proof.
  intro H. unfold slice0.
  destruct (n <? 0)%Z; apply firstn_in_class; exact H.
Qed.

Lemma strip_trailing_hyphens_cons (c : code_unit) (s : jsstring) :
  is_hyphen c = false ->
  strip_trailing_hyphens (c :: s) = c :: strip_trailing_hyphens s.
Proof.
  intro H. simpl. rewrite H.
  destruct (strip_trailing_hyphens s); reflexivity.
Qed.

Lemma strip_trailing_hyphens_length (s : jsstring) :
  (length (strip_trailing_hyphens s) <= length s)%nat.
Proof.
  induction s as [|c t IH]; simpl.
  - lia.
  - destruct (strip_trailing_hyphens t) as [|d u].
    + destruct (is_hyphen c); simpl; lia.
    + simpl in *. lia.
Qed.

Lemma strip_trailing_hyphens_end (s : jsstring) :
  ends_with_hyphen (strip_trailing_hyphens s) = false.
Proof.
  induction s as [|c t IH]; simpl.
  - reflexivity.
  - destruct (strip_trailing_hyphens t) as [|d u].
    + destruct (is_hyphen c) eqn:E; simpl; auto.
    + exact IH.
Qed.

Lemma strip_trailing_hyphens_in_class (s : jsstring) :
  all_in_class s -> all_in_class (strip_trailing_hyphens s).
Proof.
  induction 1 as [|c t Hc Ht IH]; simpl.
  - constructor.
  - destruct (strip_trailing_hyphens t) as [|d u].
    + destruct (is_hyphen c); constructor; auto.
    + constructor; assumption.
Qed.

(** A name that starts with a letter or digit, cut at a positive length
    and stripped of its hyphens at the end, keeps the invariant. *)
Lemma cut_and_strip_ok (c : code_unit) (s : jsstring) (n : Z) :
  is_alnum c = true -> (1 <= n)%Z ->
  resource_name_ok (Z.to_nat n) (strip_trailing_hyphens (slice0 (c :: s) n)).
Proof.
  intros Hc Hn. unfold resource_name_ok.
  split; [| split].
  - pose proof (strip_trailing_hyphens_length (slice0 (c :: s) n)).
    pose proof (slice0_length (c :: s) n). lia.
  - rewrite (slice0_cons c s n Hn),
      (strip_trailing_hyphens_cons c _ (alnum_not_hyphen c Hc)).
    discriminate.
  - apply strip_trailing_hyphens_end.
Qed.

(** ** The prefix of the stack *)

Lemma join_cons (sep p : jsstring) (rest : list jsstring) :
  exists x, join sep (p :: rest) = p ++ x.
Proof.
  destruct rest as [|q rest].
  - exists []. simpl. symmetry. apply app_nil_r.
  - exists (sep ++ join sep (q :: rest)). reflexivity.
Qed.

Lemma nonempty_token (s : jsstring) : token s -> nonempty s = true.
Proof. destruct 1; reflexivity. Qed.

Lemma or_else_token (s d : jsstring) :
  s = [] \/ token s -> token d -> token (or_else s d).
Proof.
  intros [-> | Tk] Td; simpl; [exact Td |].
  destruct (token_head s Tk) as (c & t & E & _).
  rewrite E in *. exact Tk.
Qed.

Lemma environmentName_token (props : Props.t) :
  token (DifyOnAwsStack.environmentName props).
Proof.
  unfold DifyOnAwsStack.environmentName.
  apply or_else_token; [apply sanitize_token |].
  do 2 (apply token_cons; [reflexivity |]).
  apply token_one. reflexivity.
Qed.

Lemma resourceNamePrefix_eq (props : Props.t) :
  DifyOnAwsStack.resourceNamePrefix props
  = str "dify-" ++ DifyOnAwsStack.environmentName props.
Proof.
  unfold DifyOnAwsStack.resourceNamePrefix.
  pose proof (environmentName_token props) as Te.
  assert (Tp : token (str "dify-" ++ DifyOnAwsStack.environmentName props)).
  { change (str "dify-") with [100; 105; 102; 121; hyphen]%N.
    simpl.
    do 3 (apply token_cons; [reflexivity |]).
    apply token_sep; [reflexivity | exact Te]. }
  rewrite (sanitize_token_id _ Tp). reflexivity.
Qed.

Lemma resourceNamePrefix_token (props : Props.t) :
  token (DifyOnAwsStack.resourceNamePrefix props).
Proof.
  rewrite resourceNamePrefix_eq.
  pose proof (environmentName_token props) as Te.
  change (str "dify-") with [100; 105; 102; 121; hyphen]%N.
  simpl.
  do 3 (apply token_cons; [reflexivity |]).
  apply token_sep; [reflexivity | exact Te].
Qed.

(** ** buildName *)

Lemma buildName_combined (prefix suffix : jsstring) :
  token prefix ->
  exists y,
    sanitize (join (str "-") (filter nonempty [prefix; sanitize suffix]))
    = prefix ++ y.
Proof.
  intro Tk. simpl filter. rewrite (nonempty_token prefix Tk).
  destruct (join_cons (str "-") prefix
              (if nonempty (sanitize suffix) then [sanitize suffix] else []))
    as [x E].
  exists (sanitize_rest x).
  rewrite <- (sanitize_token_app prefix x Tk). f_equal.
  rewrite <- E. destruct (nonempty (sanitize suffix)); reflexivity.
Qed.

Lemma buildName_ok (prefix suffix : jsstring) (maxLength : Z) :
  token prefix -> (1 <= maxLength)%Z ->
  resource_name_ok (Z.to_nat maxLength) (buildName prefix suffix maxLength).
Proof.
  intros Tk Hn. unfold buildName.
  destruct (buildName_combined prefix suffix Tk) as [y ->].
  destruct (token_head prefix Tk) as (c & t & -> & Hc).
  change ((c :: t) ++ y) with (c :: (t ++ y)).
  pose proof (cut_and_strip_ok c (t ++ y) maxLength Hc Hn) as Ok.
  set (truncated := strip_trailing_hyphens (slice0 (c :: t ++ y) maxLength)) in *.
  destruct Ok as (Hl & Hne & He).
  destruct truncated as [|d u] eqn:Et; [congruence |].
  simpl or_else. rewrite slice0_all by lia.
  unfold resource_name_ok. auto.
Qed.

(** C1: for every environment label, every suffix and every integer
    [maxLength >= 1], the name [buildName] makes of the prefix of the stack
    and the suffix has at most [maxLength] code units, is not empty, and
    does not end with a hyphen. *)
Theorem C1_buildName_bounded
  (props : Props.t) (suffix : jsstring) (maxLength : Z) :
  (1 <= maxLength)%Z ->
  let name :=
    buildName (DifyOnAwsStack.resourceNamePrefix props) suffix maxLength in
  (Z.of_nat (length name) <= maxLength)%Z
  /\ name <> []
  /\ ends_with_hyphen name = false.
Proof.
  intros Hn name.
  destruct (buildName_ok _ suffix maxLength
              (resourceNamePrefix_token props) Hn) as (Hl & Hne & He).
  fold name in Hl, Hne, He.
  repeat split; [lia | exact Hne | exact He].
Qed.

Lemma C1_buildName_bounded_witness :
  (1 <= 5)%Z
  /\ (let name :=
        buildName (DifyOnAwsStack.resourceNamePrefix Props.empty)
          (str "cluster") 5 in
      (Z.of_nat (length name) <= 5)%Z
      /\ name <> []
      /\ ends_with_hyphen name = false).
Proof.
  split; [lia |].
  apply (C1_buildName_bounded Props.empty (str "cluster") 5). lia.
Defined.

(** ** buildBucketName *)

Lemma bucketPrefix_eq (props : Props.t) (account region : option jsstring) :
  exists y,
    DifyOnAwsStack.bucketPrefix props account region
    = DifyOnAwsStack.resourceNamePrefix props ++ y.
Proof.
  unfold DifyOnAwsStack.bucketPrefix.
  pose proof (resourceNamePrefix_token props) as Tk.
  set (p := DifyOnAwsStack.resourceNamePrefix props) in *.
  match goal with
  | |- context [filter ?g _] => set (f := g)
  end.
  assert (E : filter f [Some p;
                        DifyOnAwsStack.accountSegment account;
                        DifyOnAwsStack.regionSegment region]
              = Some p :: filter f [DifyOnAwsStack.accountSegment account;
                                    DifyOnAwsStack.regionSegment region]).
  { cbn [filter]. replace (f (Some p)) with true; [reflexivity |].
    symmetry. apply (nonempty_token p Tk). }
  rewrite E. cbn [map with_default].
  match goal with
  | |- context [join ?sep (p :: ?rest)] =>
      destruct (join_cons sep p rest) as [x ->]
  end.
  exists (sanitize_rest x). apply sanitize_token_app. exact Tk.
Qed.

Lemma bucketCandidate_eq
  (props : Props.t) (account region : option jsstring) (suffix : jsstring) :
  exists z,
    bucketCandidate (DifyOnAwsStack.resourceNamePrefix props)
      (DifyOnAwsStack.bucketPrefix props account region) suffix
    = strip_trailing_hyphens
        (slice0 (DifyOnAwsStack.resourceNamePrefix props ++ z) 63).
Proof.
  unfold bucketCandidate.
  destruct (bucketPrefix_eq props account region) as [y ->].
  pose proof (resourceNamePrefix_token props) as Tk.
  set (p := DifyOnAwsStack.resourceNamePrefix props) in *.
  destruct (token_head p Tk) as (c & t & E & Hc).
  assert (B : or_else (p ++ y) p = p ++ y) by (rewrite E; reflexivity).
  rewrite B.
  assert (F : filter nonempty [p ++ y; suffix]
              = (p ++ y) :: filter nonempty [suffix]).
  { cbn [filter]. replace (nonempty (p ++ y)) with true; [reflexivity |].
    rewrite E. reflexivity. }
  rewrite F.
  destruct (join_cons (str "-") (p ++ y) (filter nonempty [suffix]))
    as [x ->].
  exists (sanitize_rest (y ++ x)).
  rewrite <- app_assoc, (sanitize_token_app p (y ++ x) Tk). reflexivity.
Qed.

Lemma bucketCandidate_in_class (prefix bprefix suffix : jsstring) :
  all_in_class (bucketCandidate prefix bprefix suffix).
Proof.
  unfold bucketCandidate.
  apply strip_trailing_hyphens_in_class, slice0_in_class, sanitize_in_class.
Qed.

Lemma bucketCandidate_length_le (prefix bprefix suffix : jsstring) :
  (length (bucketCandidate prefix bprefix suffix) <= 63)%nat.
Proof.
  unfold bucketCandidate.
  set (u := sanitize _).
  pose proof (strip_trailing_hyphens_length (slice0 u 63)).
  pose proof (slice0_length u 63). lia.
Qed.

Lemma bucketCandidate_length_ge
  (props : Props.t) (account region : option jsstring) (suffix : jsstring) :
  (3 <= length
          (bucketCandidate (DifyOnAwsStack.resourceNamePrefix props)
             (DifyOnAwsStack.bucketPrefix props account region) suffix))%nat.
Proof.
  destruct (bucketCandidate_eq props account region suffix) as [z ->].
  rewrite resourceNamePrefix_eq.
  change (str "dify-") with [100; 105; 102; 121; hyphen]%N.
  cbn [app].
  rewrite (slice0_cons 100%N _ 63) by lia.
  rewrite (slice0_cons 105%N _ (63 - 1)) by lia.
  rewrite (slice0_cons 102%N _ (63 - 1 - 1)) by lia.
  rewrite !strip_trailing_hyphens_cons by reflexivity.
  simpl. lia.
Qed.

Lemma padded_prefix_length (prefix : jsstring) :
  (3 <= length (slice0 (padEnd prefix 3 zero_digit) 63) <= 63)%nat.
Proof.
  unfold slice0, padEnd.
  change (63 <? 0)%Z with false. cbv iota.
  rewrite length_firstn, length_app, repeat_length. lia.
Qed.

(** C3: for every environment label, account and region segment and
    suffix, the bucket name has between 3 and 63 code units, all of them
    lower-case letters, digits or hyphens; and whenever the composed and cut
    candidate has fewer than 3 code units, the result is the prefix padded on
    the right with the digit zero to 3 code units, cut at 63.  (In the stack
    the candidate starts with the prefix, so it never is that short.) *)
Theorem C3_buildBucketName_bounds :
  (forall (props : Props.t) (account region : option jsstring)
          (suffix : jsstring),
      let name :=
        buildBucketName (DifyOnAwsStack.resourceNamePrefix props)
          (DifyOnAwsStack.bucketPrefix props account region) suffix in
      (3 <= length name <= 63)%nat /\ all_in_class name)
  /\ (forall prefix bprefix suffix : jsstring,
         (length (bucketCandidate prefix bprefix suffix) < 3)%nat ->
         buildBucketName prefix bprefix suffix
         = slice0 (padEnd prefix 3 zero_digit) 63
         /\ (3 <= length (buildBucketName prefix bprefix suffix) <= 63)%nat).
Proof.
  split.
  - intros props account region suffix name. subst name.
    unfold buildBucketName.
    pose proof (bucketCandidate_length_ge props account region suffix) as Hge.
    pose proof (bucketCandidate_length_le
                  (DifyOnAwsStack.resourceNamePrefix props)
                  (DifyOnAwsStack.bucketPrefix props account region)
                  suffix) as Hle.
    destruct (Nat.ltb_spec
                (length
                   (bucketCandidate (DifyOnAwsStack.resourceNamePrefix props)
                      (DifyOnAwsStack.bucketPrefix props account region)
                      suffix)) 3) as [Hlt | _]; [lia |].
    split; [lia | apply bucketCandidate_in_class].
  - intros prefix bprefix suffix Hlt.
    unfold buildBucketName.
    destruct (Nat.ltb_spec
                (length (bucketCandidate prefix bprefix suffix)) 3)
      as [_ | Hge]; [| lia].
    split; [reflexivity | apply padded_prefix_length].
Qed.

Lemma C3_buildBucketName_bounds_witness :
  buildBucketName [] [] [] = str "000"
  /\ (3 <= length (buildBucketName [] [] []) <= 63)%nat.
Proof.
  apply (proj2 C3_buildBucketName_bounds [] [] []).
  simpl. lia.
Defined.

(** ** The names of the constructs *)

Lemma redis_names_ok (prefix : jsstring) :
  token prefix ->
  resource_name_ok 255 (Redis.subnetGroupName (Redis.new prefix))
  /\ resource_name_ok 40 (Redis.replicationGroupId (Redis.new prefix)).
Proof.
  intro Tk. destruct (token_head prefix Tk) as (c & t & -> & Hc).
  split; simpl.
  - apply (cut_and_strip_ok c (t ++ str "-redis-subnets") 255 Hc). lia.
  - apply (cut_and_strip_ok c (t ++ str "-redis") 40 Hc). lia.
Qed.

(** The names that are cut and stripped keep the invariant for every
    configuration. *)
Lemma stripped_names_ok (props : Props.t) :
  resource_name_ok 255
    (buildName (DifyOnAwsStack.resourceNamePrefix props) (str "cluster") 255)
  /\ resource_name_ok 255
       (Redis.subnetGroupName
          (Redis.new (DifyOnAwsStack.resourceNamePrefix props)))
  /\ resource_name_ok 40
       (Redis.replicationGroupId
          (Redis.new (DifyOnAwsStack.resourceNamePrefix props))).
Proof.
  pose proof (resourceNamePrefix_token props) as Tk.
  split.
  - apply (buildName_ok _ (str "cluster") 255 Tk). lia.
  - apply redis_names_ok. exact Tk.
Qed.

(** The names of the web service are cut and not stripped: they are not
    empty and within the ceiling, for every configuration. *)
Lemma web_names_bounded (props : Props.t) :
  let web := WebService.new (DifyOnAwsStack.resourceNamePrefix props) in
  (0 < length (WebService.taskFamily web) <= 255)%nat
  /\ (0 < length (WebService.serviceName web) <= 255)%nat.
Proof.
  pose proof (resourceNamePrefix_token props) as Tk.
  destruct (token_head _ Tk) as (c & t & E & Hc).
  cbv zeta. unfold WebService.new.
  cbn [WebService.taskFamily WebService.serviceName].
  rewrite E.
  change ((c :: t) ++ str "-web") with (c :: (t ++ str "-web")).
  rewrite (slice0_cons c _ 255) by lia.
  pose proof (slice0_length (t ++ str "-web") (255 - 1)).
  cbn [length]. lia.
Qed.

(** C2: with an environment name of 249 letters the constructor runs to
    its end, and the task family and the service name it hands on have 255
    code units and end with a hyphen; the cluster name, the subnet-group
    name and the replication-group id of the same run keep the invariant. *)
Theorem C2_web_names_end_with_hyphen :
  match run (DifyOnAwsStack.new long_environment None None) with
  | Done (stack, _) =>
      let web := DifyOnAwsStack.web stack in
      let redis := DifyOnAwsStack.redis stack in
      length (WebService.taskFamily web) = 255%nat
      /\ ends_with_hyphen (WebService.taskFamily web) = true
      /\ length (WebService.serviceName web) = 255%nat
      /\ ends_with_hyphen (WebService.serviceName web) = true
      /\ resource_name_ok 255 (DifyOnAwsStack.clusterName stack)
      /\ resource_name_ok 255 (Redis.subnetGroupName redis)
      /\ resource_name_ok 40 (Redis.replicationGroupId redis)
  | Throw _ => False
  end.
Proof.
  vm_compute.
  repeat split; try discriminate; repeat constructor.
Qed.

(** ** The checks of the configuration *)

Import DifyOnAwsStack.

(** The checks, rule by rule: the first rule that is violated throws. *)
Lemma validate_steps (props : Props.t) (w : list Annotation) :
  validate props w =
    if vpc_conflict props
    then Throw (vpc_message (with_default (Props.vpcId props) []))
    else if internalAlb_conflict props then Throw internalAlb_message
    else if subDomain_conflict props then Throw subDomain_message
    else if setupEmail_conflict props then Throw setupEmail_message
    else if secretName_conflict props
         then Throw (secretName_message (filtered props))
    else Done (tt, w ++ advisories props).
Proof.
  unfold validate, vpc_conflict, internalAlb_conflict, subDomain_conflict,
    setupEmail_conflict, secretName_conflict, advisories, advisory_due,
    bind, when, throw, ret, addWarningV2, truthy_string.
  destruct (Props.vpcId props) as [v |]; simpl.
  - destruct (nonempty v
              && (is_set (Props.vpcIsolated props)
                  || is_set (Props.useNatInstance props))); [reflexivity |].
    repeat match goal with
      | |- context [if ?b then _ else _] => destruct b
      end; rewrite ?app_nil_r; reflexivity.
  - repeat match goal with
      | |- context [if ?b then _ else _] => destruct b
      end; rewrite ?app_nil_r; reflexivity.
Qed.

Lemma validate_run (props : Props.t) :
  run (validate props) =
    match independent_violations props with
    | [] => Done (tt, advisories props)
    | first :: _ => Throw first
    end.
Proof.
  unfold run. rewrite validate_steps. unfold independent_violations.
  destruct (vpc_conflict props); [reflexivity |].
  destruct (internalAlb_conflict props); [reflexivity |].
  destruct (subDomain_conflict props); [reflexivity |].
  destruct (setupEmail_conflict props); [reflexivity |].
  destruct (secretName_conflict props); reflexivity.
Qed.

(** The messages of the rules start differently. *)
Lemma vpc_message_head (v : jsstring) : hd 0%N (vpc_message v) = 87%N.
Proof. reflexivity. Qed.

Lemma secretName_message_head (ids : list jsstring) :
  hd 0%N (secretName_message ids) = 115%N.
Proof. reflexivity. Qed.

Lemma Throw_inj (A : Type) (m1 m2 : jsstring) :
  @Throw A m1 = Throw m2 -> m1 = m2.
Proof. intro H. injection H as ->. reflexivity. Qed.

Ltac other_message H :=
  apply Throw_inj in H; apply (f_equal (hd 0%N)) in H;
  rewrite ?vpc_message_head, ?secretName_message_head in H;
  vm_compute in H; discriminate H.

(** ** The pattern of the secret names *)

Lemma Matches_Class (p : code_unit -> bool) (s : jsstring) :
  Matches (Class p) s <-> exists c, s = [c] /\ p c = true.
Proof.
  split.
  - inversion 1; subst. eauto.
  - intros (c & -> & H). constructor. exact H.
Qed.

Lemma Matches_Cat_Class (p : code_unit -> bool) (r : regex) (s : jsstring) :
  Matches (Cat (Class p) r) s
  <-> exists c t, s = c :: t /\ p c = true /\ Matches r t.
Proof.
  split.
  - inversion 1 as [| | r1 r2 s1 s2 M1 M2 | | | |]; subst.
    apply Matches_Class in M1 as (c & -> & Hc).
    exists c, s2. auto.
  - intros (c & t & -> & Hc & M).
    change (c :: t) with ([c] ++ t).
    constructor; [constructor; exact Hc | exact M].
Qed.

Lemma secret_suffix_re_spec (u : jsstring) :
  full_match secret_suffix_re u = true
  <-> exists tail,
      u = hyphen :: tail /\ length tail = 6%nat
      /\ Forall (fun c => is_line_terminator c = false) tail.
Proof.
  rewrite full_match_Matches. unfold secret_suffix_re.
  split.
  - intro M.
    repeat (apply Matches_Cat_Class in M as (? & ? & -> & ? & M)).
    apply Matches_Class in M as (? & -> & ?).
    match goal with
    | H : is_hyphen ?h = true |- _ => apply is_hyphen_eq in H; subst h
    end.
    eexists. split; [reflexivity |]. split; [reflexivity |].
    unfold dot in *.
    repeat constructor;
      match goal with
      | H : negb (is_line_terminator ?c) = true
        |- is_line_terminator ?c = false =>
          apply negb_true_iff; exact H
      end.
  - intros (tail & -> & Hl & Hd).
    do 7 (destruct tail as [| ? tail]; try discriminate Hl).
    repeat match goal with
      | H : Forall _ (_ :: _) |- _ => inversion H; subst; clear H
      end.
    unfold dot.
    repeat (apply Matches_Cat_Class;
            eexists; eexists; split; [reflexivity |]; split;
            [first [reflexivity | apply negb_true_iff; assumption] |]).
    apply Matches_Class. eexists. split; [reflexivity |].
    apply negb_true_iff; assumption.
Qed.

Lemma test_at_end_spec (r : regex) (s : jsstring) :
  test_at_end r s = true
  <-> exists pre u, s = pre ++ u /\ full_match r u = true.
Proof.
  induction s as [|c t IH]; simpl.
  - rewrite orb_false_r. split.
    + intro H. exists [], []. auto.
    + intros (pre & u & E & H).
      symmetry in E. apply app_eq_nil in E as [_ ->]. exact H.
  - rewrite orb_true_iff, IH. split.
    + intros [H | (pre & u & -> & H)].
      * exists [], (c :: t). auto.
      * exists (c :: pre), u. auto.
    + intros (pre & u & E & H).
      destruct pre as [|d pre]; simpl in E.
      * left. subst u. exact H.
      * injection E as -> ->. right. exists pre, u. auto.
Qed.

(** [/-......$/.test(s)] holds exactly of the names that end in a hyphen
    and six code units that are no line terminators. *)
Lemma secret_suffix_test (s : jsstring) :
  test_at_end secret_suffix_re s = true <-> ends_with_hyphen_and_six s.
Proof.
  rewrite test_at_end_spec. unfold ends_with_hyphen_and_six.
  split.
  - intros (pre & u & -> & H).
    apply secret_suffix_re_spec in H as (tail & -> & Hl & Hd).
    exists pre, tail. auto.
  - intros (pre & tail & -> & Hl & Hd).
    exists pre, (hyphen :: tail). split; [reflexivity |].
    apply secret_suffix_re_spec. exists tail. auto.
Qed.

Lemma secret_values_In (vs : list Props.EnvValue) (sv : SecretValue) :
  In sv (secret_values vs)
  <-> In (Props.SecretRef (secretName sv) (field sv)) vs.
Proof.
  unfold secret_values. rewrite in_flat_map. split.
  - intros (v & Hv & Hs).
    destruct v as [txt | n f | pn]; simpl in Hs; try contradiction.
    destruct Hs as [<- | []]. exact Hv.
  - intro H. eexists. split; [exact H |].
    simpl. left. destruct sv; reflexivity.
Qed.

(** [filtered] holds the offending secret names, and all of them. *)
Lemma filtered_In (props : Props.t) (name : jsstring) :
  In name (filtered props) <-> offending props name.
Proof.
  unfold filtered, offending.
  rewrite in_map_iff. split.
  - intros (sv & <- & H).
    apply filter_In in H as [H T].
    apply secret_values_In in H. apply in_map_iff in H as (var & Ev & Hv).
    apply secret_suffix_test in T. split; [| exact T].
    exists (Props.key var), (field sv).
    destruct var as [k v]; simpl in *. subst v. exact Hv.
  - intros [(k & f & Hv) T].
    exists {| secretName := name; field := f |}. split; [reflexivity |].
    apply filter_In. split.
    + apply secret_values_In. simpl.
      apply in_map_iff. eexists. split; [| exact Hv]. reflexivity.
    + simpl. apply secret_suffix_test. exact T.
Qed.

(** ** The constructor *)

Lemma new_run (props : Props.t) (account region : option jsstring) :
  run (new props account region) =
    match run (validate props) with
    | Throw message => Throw message
    | Done (_, warnings) =>
        if truthy_string (Props.domainName props)
           && (is_null account || is_null region)
        then Throw (lookup_message (str "hosted-zone"))
        else Done (resources props account region, warnings)
    end.
Proof.
  unfold run, new, hostedZone_fromLookup, bind, ret, when, throw.
  destruct (validate props []) as [m | [u w]]; [reflexivity |].
  destruct (truthy_string (Props.domainName props)); [| reflexivity].
  destruct (is_null account || is_null region); reflexivity.
Qed.

(** C5, as amended: validation raises the error that names the imported
    VPC exactly when [vpcId] is set to a non-empty string and [vpcIsolated]
    or [useNatInstance] is set at all, to true or to false; the message
    contains the identifier. *)
Theorem C5_vpc_error_when_property_set (props : Props.t) :
  ((exists vpcId,
       Props.vpcId props = Some vpcId
       /\ run (validate props) = Throw (vpc_message vpcId))
   <-> (exists vpcId,
           Props.vpcId props = Some vpcId /\ vpcId <> []
           /\ (Props.vpcIsolated props <> None
               \/ Props.useNatInstance props <> None)))
  /\ (forall vpcId : jsstring,
         exists before after, vpc_message vpcId = before ++ vpcId ++ after).
Proof.
  split.
  - unfold run. rewrite validate_steps. unfold vpc_conflict, truthy_string.
    split.
    + intros (v & Ev & H). rewrite Ev in H. exists v.
      split; [exact Ev |].
      destruct v as [|c v]; simpl in H.
      * repeat match type of H with
          | (if ?b then _ else _) = _ => destruct b
          end; try discriminate H; other_message H.
      * split; [discriminate |].
        destruct (Props.vpcIsolated props), (Props.useNatInstance props);
          simpl in H;
          try (left; discriminate); try (right; discriminate).
        repeat match type of H with
          | (if ?b then _ else _) = _ => destruct b
          end; try discriminate H; other_message H.
    + intros (v & Ev & Hne & Hset). exists v. split; [exact Ev |].
      rewrite Ev. simpl.
      assert (N : nonempty v = true) by (destruct v; [congruence | reflexivity]).
      assert (S : is_set (Props.vpcIsolated props)
                  || is_set (Props.useNatInstance props) = true).
      { destruct (Props.vpcIsolated props), (Props.useNatInstance props);
          simpl; try reflexivity. destruct Hset; congruence. }
      rewrite N, S. reflexivity.
  - intro v. eexists. eexists. reflexivity.
Qed.

(** C5, counterexample: with [vpcId] set and [useNatInstance: false], so
    that neither a NAT instance nor isolated subnets are asked for, the
    error is raised all the same. *)
Lemma C5_counterexample :
  Props.useNatInstance vpc_with_nat_disabled = Some false
  /\ Props.vpcIsolated vpc_with_nat_disabled = None
  /\ run (validate vpc_with_nat_disabled) = Throw (vpc_message (str "vpc-0abc")).
Proof. repeat split. Qed.

(** C6, as amended: validation raises the error of the internal load
    balancer exactly when the rule of the imported VPC is not violated,
    [useCloudFront] is true or left out, and [internalAlb] is set at all,
    to true or to false. *)
Theorem C6_internalAlb_error_when_property_set (props : Props.t) :
  run (validate props) = Throw internalAlb_message
  <-> vpc_conflict props = false
      /\ Props.useCloudFront props <> Some false
      /\ Props.internalAlb props <> None.
Proof.
  unfold run. rewrite validate_steps.
  unfold internalAlb_conflict, useCloudFront.
  split.
  - intro H.
    destruct (vpc_conflict props); [other_message H |].
    split; [reflexivity |].
    destruct (Props.useCloudFront props) as [[|] |],
             (Props.internalAlb props) as [b |];
      simpl in H;
      try (split; congruence);
      repeat match type of H with
        | (if ?b then _ else _) = _ => destruct b
        end; try discriminate H;
      try (apply Throw_inj in H; vm_compute in H; discriminate H);
      other_message H.
  - intros (-> & Hc & Hi).
    destruct (Props.useCloudFront props) as [[|] |],
             (Props.internalAlb props) as [b |];
      simpl; congruence.
Qed.

(** C6, counterexample: with [useCloudFront: true] and
    [internalAlb: false] the internal load balancer is not selected, and
    the error is raised. *)
Lemma C6_counterexample :
  Props.useCloudFront cdn_with_public_alb = Some true
  /\ Props.internalAlb cdn_with_public_alb = Some false
  /\ run (validate cdn_with_public_alb) = Throw internalAlb_message.
Proof. repeat split. Qed.

Lemma bool_eq_iff (a b : bool) : (a = true <-> b = true) -> a = b.
Proof. destruct a, b; intros [H1 H2]; auto; symmetry; auto. Qed.

Lemma ends_with_hyphen_and_six_b_spec (s : jsstring) :
  ends_with_hyphen_and_six_b s = true <-> ends_with_hyphen_and_six_any s.
Proof.
  unfold ends_with_hyphen_and_six_b, ends_with_hyphen_and_six_any. split.
  - intro H.
    destruct (rev s) as [|c6 [|c5 [|c4 [|c3 [|c2 [|c1 [|h r]]]]]]] eqn:E;
      try discriminate H.
    apply is_hyphen_eq in H. subst h.
    exists (rev r), [c1; c2; c3; c4; c5; c6].
    split; [| reflexivity].
    rewrite <- (rev_involutive s), E. simpl.
    repeat rewrite <- app_assoc. reflexivity.
  - intros (pre & tail & -> & Hl).
    do 7 (destruct tail as [| ? tail]; try discriminate Hl).
    rewrite rev_app_distr. simpl.
    repeat rewrite <- app_assoc. reflexivity.
Qed.

Lemma no_line_terminator_tail (pre tail : jsstring) :
  no_line_terminator (pre ++ tail) = true ->
  Forall (fun c => is_line_terminator c = false) tail.
Proof.
  unfold no_line_terminator. rewrite forallb_app.
  intro H. apply andb_true_iff in H as [_ H].
  apply Forall_forall. intros c Hc.
  rewrite forallb_forall in H. apply negb_true_iff, H, Hc.
Qed.

(** On a name without line terminators the pattern of line 98 tests for a
    hyphen and six characters at the end. *)
Lemma secret_suffix_test_plain (s : jsstring) :
  no_line_terminator s = true ->
  test_at_end secret_suffix_re s = ends_with_hyphen_and_six_b s.
Proof.
  intro Hn. apply bool_eq_iff.
  rewrite secret_suffix_test, ends_with_hyphen_and_six_b_spec.
  unfold ends_with_hyphen_and_six, ends_with_hyphen_and_six_any.
  split.
  - intros (pre & tail & E & Hl & _). eauto.
  - intros (pre & tail & E & Hl). exists pre, tail.
    split; [exact E |]. split; [exact Hl |].
    rewrite E in Hn.
    apply (no_line_terminator_tail (pre ++ [hyphen]) tail).
    rewrite <- app_assoc. exact Hn.
Qed.

Lemma secret_values_names (vars : list Props.EnvVar) :
  map secretName (secret_values (map Props.value vars))
  = flat_map
      (fun var =>
         match Props.value var with
         | Props.SecretRef name _ => [name]
         | _ => []
         end)
      vars.
Proof.
  induction vars as [|var rest IH]; simpl; [reflexivity |].
  destruct (Props.value var); simpl; rewrite <- IH; reflexivity.
Qed.

Lemma map_filter_comm (A B : Type) (f : A -> B) (p : B -> bool) (l : list A) :
  map f (filter (fun a => p (f a)) l) = filter p (map f l).
Proof.
  induction l as [|a l IH]; simpl; [reflexivity |].
  destruct (p (f a)); simpl; rewrite IH; reflexivity.
Qed.

(** Without line terminators in the secret names, [filtered] holds the
    names that end in a hyphen and six characters, in the order of the
    configuration. *)
Lemma filtered_plain (props : Props.t) :
  secret_names_plain props = true -> filtered props = offending_names props.
Proof.
  intro Hp. unfold filtered, offending_names.
  rewrite (map_filter_comm _ _ secretName
             (fun n => test_at_end secret_suffix_re n)).
  rewrite secret_values_names. fold (secret_names props).
  apply filter_ext_in. intros n Hn.
  apply secret_suffix_test_plain.
  unfold secret_names_plain in Hp. rewrite forallb_forall in Hp.
  apply Hp. exact Hn.
Qed.

Lemma secret_names_In (props : Props.t) (name : jsstring) :
  In name (secret_names props)
  <-> exists k f,
      In {| Props.key := k; Props.value := Props.SecretRef name f |}
        (with_default (Props.additionalEnvironmentVariables props) []).
Proof.
  unfold secret_names. rewrite in_flat_map. split.
  - intros ([k v] & Hv & Hn). simpl in Hn.
    destruct v as [txt | n f | pn]; simpl in Hn; try contradiction.
    destruct Hn as [<- | []]. eauto.
  - intros (k & f & Hv). eexists. split; [exact Hv |]. simpl. auto.
Qed.

Lemma join_contains (sep name : jsstring) (parts : list jsstring) :
  In name parts ->
  exists before after, join sep parts = before ++ name ++ after.
Proof.
  induction parts as [|p rest IH]; [contradiction |].
  intros [-> | Hin].
  - exists []. destruct rest as [|q rest].
    + exists []. simpl. rewrite app_nil_r. reflexivity.
    + exists (sep ++ join sep (q :: rest)). reflexivity.
  - destruct rest as [|q rest]; [contradiction |].
    destruct (IH Hin) as (b & a & E).
    exists (p ++ sep ++ b), a.
    change (join sep (p :: q :: rest)) with (p ++ sep ++ join sep (q :: rest)).
    rewrite E, <- !app_assoc. reflexivity.
Qed.

(** C7, as amended: for a configuration whose secret names hold no line
    terminator, the offending names are the names of the secret references
    that end in a hyphen and six characters, in the order of the
    configuration; validation raises the error whose message is
    ["secretName cannot ends with a hyphen and 6 characters! "] followed by
    all of them, separated by a comma and a space, exactly when none of
    the four rules before it is violated and there is such a name; and that
    message contains every one of them. *)
Theorem C7_secret_names_listed (props : Props.t) :
  secret_names_plain props = true ->
  (forall name,
      In name (offending_names props)
      <-> (exists k f,
              In {| Props.key := k; Props.value := Props.SecretRef name f |}
                (with_default (Props.additionalEnvironmentVariables props) []))
          /\ ends_with_hyphen_and_six_any name)
  /\ (run (validate props)
      = Throw (secretName_header
               ++ join (str ", ") (offending_names props))
      <-> (vpc_conflict props = false
           /\ internalAlb_conflict props = false
           /\ subDomain_conflict props = false
           /\ setupEmail_conflict props = false)
          /\ exists name, In name (offending_names props))
  /\ (forall name,
         In name (offending_names props) ->
         exists before after,
           secretName_header ++ join (str ", ") (offending_names props)
           = before ++ name ++ after).
Proof.
  intro Hp. split; [| split].
  - intro name. unfold offending_names.
    rewrite filter_In, secret_names_In, ends_with_hyphen_and_six_b_spec.
    reflexivity.
  - unfold run. rewrite validate_steps. unfold secretName_conflict.
    rewrite (filtered_plain props Hp).
    change (secretName_message (offending_names props))
      with (secretName_header ++ join (str ", ") (offending_names props)).
    split.
    + intro H.
      destruct (vpc_conflict props); [other_message H |].
      destruct (internalAlb_conflict props); [other_message H |].
      destruct (subDomain_conflict props); [other_message H |].
      destruct (setupEmail_conflict props); [other_message H |].
      split; [auto |].
      destruct (offending_names props) as [|name rest]; [discriminate H |].
      exists name. left. reflexivity.
    + intros [(-> & -> & -> & ->) (name & Hn)].
      destruct (offending_names props) as [|first rest]; [contradiction |].
      reflexivity.
  - intros name Hn.
    destruct (join_contains (str ", ") name _ Hn) as (b & a & E).
    exists (secretName_header ++ b), a.
    rewrite E, <- !app_assoc. reflexivity.
Qed.

Lemma C7_secret_names_listed_witness :
  In (str "other-123456") (offending_names two_secrets)
  /\ run (validate two_secrets)
     = Throw (str "secretName cannot ends with a hyphen and 6 characters! mysecret-ab12cd, other-123456")
  /\ exists before after,
       secretName_header ++ join (str ", ") (offending_names two_secrets)
       = before ++ str "other-123456" ++ after.
Proof.
  destruct (C7_secret_names_listed two_secrets eq_refl) as (M & V & L).
  assert (I : In (str "other-123456") (offending_names two_secrets))
    by (right; left; reflexivity).
  split; [exact I |]. split.
  - apply V. split; [repeat split |].
    exists (str "other-123456"). exact I.
  - apply L. exact I.
Defined.

(** C7, counterexample: a secret name with a line feed among the six code
    units after its last hyphen is accepted; and when the rule of the
    imported VPC is violated as well, the error that is raised is that
    rule's and lists no secret name. *)
Lemma C7_counterexample :
  (ends_with_hyphen_and_six_any newline_name
   /\ run (validate newline_secret) = Done (tt, [albWithoutEncryption]))
  /\ (ends_with_hyphen_and_six (str "mysecret-ab12cd")
      /\ run (validate vpc_and_secret) = Throw (vpc_message (str "vpc-0abc"))
      /\ run (validate vpc_and_secret)
         <> Throw (secretName_message [str "mysecret-ab12cd"])).
Proof.
  split; split.
  - exists (str "s"), (str "ab" ++ [10%N] ++ str "cde"). split; reflexivity.
  - reflexivity.
  - apply secret_suffix_test. reflexivity.
  - split; [reflexivity |]. intro H. vm_compute in H. discriminate H.
Qed.

(** The error of the secret names lists every offending name, not the
    first only. *)
Example two_secrets_listed :
  run (validate two_secrets)
  = Throw (str "secretName cannot ends with a hyphen and 6 characters! mysecret-ab12cd, other-123456").
Proof. reflexivity. Qed.

(** C8: a configuration with [useCloudFront: false], no [domainName] and
    [internalAlb: false] that violates none of the other rules gets exactly
    one annotation, the warning about the load balancer without encryption,
    and no error: the constructor goes on and hands on its resources. *)
Theorem C8_advisory_and_no_error
  (props : Props.t) (account region : option jsstring) :
  Props.useCloudFront props = Some false ->
  Props.domainName props = None ->
  Props.internalAlb props = Some false ->
  vpc_conflict props = false ->
  Props.subDomain props = None ->
  Props.setupEmail props <> Some true ->
  filtered props = [] ->
  run (validate props) = Done (tt, [albWithoutEncryption])
  /\ run (new props account region)
     = Done (resources props account region, [albWithoutEncryption]).
Proof.
  intros Hc Hd Hi Hv Hs He Hf.
  assert (V : run (validate props) = Done (tt, [albWithoutEncryption])).
  { unfold run. rewrite validate_steps, Hv.
    unfold internalAlb_conflict, subDomain_conflict, setupEmail_conflict,
      secretName_conflict, advisories, advisory_due, useCloudFront,
      internalAlb.
    rewrite Hc, Hd, Hi, Hs, Hf. simpl.
    destruct (Props.setupEmail props) as [[|] |]; simpl;
      [congruence | reflexivity | reflexivity]. }
  split; [exact V |].
  rewrite new_run, V, Hd. reflexivity.
Qed.

Lemma C8_advisory_and_no_error_witness :
  run (validate public_plain_alb) = Done (tt, [albWithoutEncryption])
  /\ run (new public_plain_alb None None)
     = Done (resources public_plain_alb None None, [albWithoutEncryption]).
Proof.
  apply (C8_advisory_and_no_error public_plain_alb None None);
    try reflexivity.
  simpl. discriminate.
Defined.

(** The five rules have five different messages. *)
Lemma messages_distinct (vpcId : jsstring) (ids : list jsstring) :
  NoDup [vpc_message vpcId; internalAlb_message; subDomain_message;
         setupEmail_message; secretName_message ids].
Proof.
  repeat (apply NoDup_cons;
          [simpl; intro H;
           repeat (destruct H as [H | H];
                   [apply (f_equal (firstn 20)) in H; vm_compute in H;
                    discriminate H |]);
           exact H |]).
  apply NoDup_nil.
Qed.

(** C9, as amended: the rules are checked in the order of the source and
    the first one that is violated raises its error; of a configuration
    that violates several rules only that first error is raised, and a
    configuration that violates none gets its annotations.  Each rule has a
    message of its own. *)
Theorem C9_first_violation_only (props : Props.t) :
  run (validate props) =
    match independent_violations props with
    | [] => Done (tt, advisories props)
    | first :: _ => Throw first
    end
  /\ NoDup [vpc_message (with_default (Props.vpcId props) []);
            internalAlb_message; subDomain_message; setupEmail_message;
            secretName_message (filtered props)].
Proof. split; [apply validate_run | apply messages_distinct]. Qed.

(** C9, counterexample: with [subDomain] set without [domainName] and a
    secret name that ends in a hyphen and six characters, two rules are
    violated, and the error of the secret name is not raised. *)
Lemma C9_counterexample :
  independent_violations subdomain_and_secret
  = [subDomain_message; secretName_message [str "mysecret-ab12cd"]]
  /\ run (validate subdomain_and_secret) = Throw subDomain_message
  /\ run (validate subdomain_and_secret)
     <> Throw (secretName_message [str "mysecret-ab12cd"]).
Proof.
  split; [reflexivity |]. split; [reflexivity |].
  intro H. vm_compute in H. discriminate H.
Qed.

(** C10, as amended: when [useCloudFront], [domainName] and [internalAlb]
    are left out and no rule is violated, CloudFront is on by default and the load
    balancer that is wired in is the one with CloudFront, and the warning
    about the load balancer without encryption is added all the same: its
    condition reads the property as it was given. *)
Theorem C10_advisory_with_default_cloudfront
  (props : Props.t) (account region : option jsstring) :
  Props.useCloudFront props = None ->
  Props.domainName props = None ->
  Props.internalAlb props = None ->
  vpc_conflict props = false ->
  Props.subDomain props = None ->
  Props.setupEmail props <> Some true ->
  filtered props = [] ->
  useCloudFront props = true
  /\ run (new props account region)
     = Done (resources props account region, [albWithoutEncryption])
  /\ alb (resources props account region) = AlbWithCloudFront (str "dify").
Proof.
  intros Hc Hd Hi Hv Hs He Hf.
  assert (U : useCloudFront props = true).
  { unfold useCloudFront. rewrite Hc. reflexivity. }
  split; [exact U |]. split.
  - rewrite new_run. unfold run. rewrite validate_steps, Hv.
    unfold internalAlb_conflict, subDomain_conflict, setupEmail_conflict,
      secretName_conflict, advisories, advisory_due, internalAlb.
    rewrite U, Hc, Hd, Hi, Hs, Hf. simpl.
    destruct (Props.setupEmail props) as [[|] |]; simpl;
      [congruence | reflexivity | reflexivity].
  - unfold resources. cbn [alb]. rewrite U.
    unfold subDomain. rewrite Hs. reflexivity.
Qed.

Lemma C10_advisory_with_default_cloudfront_witness :
  useCloudFront Props.empty = true
  /\ run (new Props.empty None None)
     = Done (resources Props.empty None None, [albWithoutEncryption])
  /\ alb (resources Props.empty None None) = AlbWithCloudFront (str "dify").
Proof.
  apply (C10_advisory_with_default_cloudfront Props.empty None None);
    try reflexivity.
  simpl. discriminate.
Defined.

(** C10, counterexample: with [useCloudFront] and [domainName] left out
    and [internalAlb: false] the internal load balancer is not selected,
    and the constructor throws the error of the [internalAlb] rule: no
    warning is added. *)
Lemma C10_counterexample :
  Props.useCloudFront default_cdn_public_alb = None
  /\ Props.domainName default_cdn_public_alb = None
  /\ Props.internalAlb default_cdn_public_alb = Some false
  /\ run (new default_cdn_public_alb None None) = Throw internalAlb_message.
Proof. repeat split. Qed.

(** * Further properties of the code *)

(** ** Tokens, joined and cut *)

Lemma token_no_double (s : jsstring) : token s -> no_double_hyphen s = true.
Proof.
  induction 1 as [c Hc | c s Hc Hs IH | c s Hc Hs IH]; simpl.
  - rewrite (alnum_not_hyphen c Hc). reflexivity.
  - rewrite (alnum_not_hyphen c Hc), IH. reflexivity.
  - rewrite (alnum_not_hyphen c Hc), (token_start s Hs), IH. reflexivity.
Qed.

Lemma token_join (a b : jsstring) :
  token a -> token b -> token (a ++ hyphen :: b).
Proof.
  intros Ta Tb.
  induction Ta as [c Hc | c s Hc Hs IH | c s Hc Hs IH]; simpl.
  - apply token_sep; assumption.
  - apply token_cons; assumption.
  - apply token_sep; assumption.
Qed.

Lemma alnum_run_token (a : jsstring) :
  Forall (fun c => is_alnum c = true) a -> a <> [] -> token a.
Proof.
  induction 1 as [|c t Hc Ht IH]; intro Hne; [congruence |].
  destruct t as [|d t].
  - apply token_one. exact Hc.
  - apply token_cons; [exact Hc | apply IH; discriminate].
Qed.

Lemma alnum_run_join (a t : jsstring) :
  Forall (fun c => is_alnum c = true) a -> a <> [] -> token t ->
  token (a ++ hyphen :: t).
Proof.
  intros Ha Hne Tt. apply token_join; [| exact Tt].
  apply alnum_run_token; assumption.
Qed.

Lemma Matches_Star_alnum (s : jsstring) :
  Matches (Star (Class is_alnum)) s -> Forall (fun c => is_alnum c = true) s.
Proof.
  intro M. remember (Star (Class is_alnum)) as r eqn:Er.
  induction M; try discriminate Er.
  - constructor.
  - injection Er as ->.
    apply Matches_Class in M1 as (c & -> & Hc).
    constructor; [exact Hc | apply IHM2; reflexivity].
Qed.

Lemma Matches_Plus_alnum (s : jsstring) :
  Matches (Plus (Class is_alnum)) s ->
  Forall (fun c => is_alnum c = true) s /\ s <> [].
Proof.
  unfold Plus. intro M.
  apply Matches_Cat_Class in M as (c & t & -> & Hc & M).
  split; [| discriminate].
  constructor; [exact Hc | apply Matches_Star_alnum; exact M].
Qed.

Lemma Matches_Star_groups (s : jsstring) :
  Matches (Star (Cat (Class is_hyphen) (Plus (Class is_alnum)))) s ->
  s = [] \/ exists t, s = hyphen :: t /\ token t.
Proof.
  intro M.
  remember (Star (Cat (Class is_hyphen) (Plus (Class is_alnum)))) as r eqn:Er.
  induction M; try discriminate Er.
  - left. reflexivity.
  - injection Er as ->. right.
    apply Matches_Cat_Class in M1 as (h & a & -> & Hh & Ma).
    apply is_hyphen_eq in Hh. subst h.
    apply Matches_Plus_alnum in Ma as [Ha Hne].
    destruct (IHM2 eq_refl) as [-> | (t & -> & Tt)].
    + exists a. rewrite app_nil_r. split; [reflexivity |].
      apply alnum_run_token; assumption.
    + exists (a ++ hyphen :: t). split; [reflexivity |].
      apply alnum_run_join; assumption.
Qed.

(** The strings the pattern matches are the tokens. *)
Lemma Matches_token (s : jsstring) : Matches token_re s -> token s.
Proof.
  unfold token_re. intro M.
  inversion M as [| | r1 r2 s1 s2 M1 M2 | | | |]; subst.
  apply Matches_Plus_alnum in M1 as [Ha Hne].
  destruct (Matches_Star_groups s2 M2) as [-> | (t & -> & Tt)].
  - rewrite app_nil_r. apply alnum_run_token; assumption.
  - apply alnum_run_join; assumption.
Qed.

Lemma token_full_match (s : jsstring) :
  full_match token_re s = true <-> token s.
Proof.
  rewrite full_match_Matches. split.
  - apply Matches_token.
  - apply token_Matches.
Qed.

Lemma starts_with_hyphen_firstn (n : nat) (s : jsstring) :
  starts_with_hyphen (firstn n s) = true -> starts_with_hyphen s = true.
Proof. destruct n, s; simpl; auto; discriminate. Qed.

Lemma firstn_no_double (n : nat) (s : jsstring) :
  no_double_hyphen s = true -> no_double_hyphen (firstn n s) = true.
Proof.
  revert n. induction s as [|c t IH]; intros [|n]; simpl; auto.
  intro H. apply andb_true_iff in H as [H1 H2].
  rewrite (IH n H2), andb_true_r.
  destruct (is_hyphen c); [| reflexivity]. simpl in *.
  destruct (starts_with_hyphen (firstn n t)) eqn:E; [| reflexivity].
  rewrite (starts_with_hyphen_firstn n t E) in H1. discriminate.
Qed.

Lemma strip_trailing_hyphens_head (s u : jsstring) (d : code_unit) :
  strip_trailing_hyphens s = d :: u -> exists rest, s = d :: rest.
Proof.
  destruct s as [|c t]; simpl; [discriminate |].
  destruct (strip_trailing_hyphens t).
  - destruct (is_hyphen c); [discriminate |].
    intro H. injection H as -> _. eauto.
  - intro H. injection H as -> _. eauto.
Qed.

Lemma strip_trailing_hyphens_no_double (s : jsstring) :
  no_double_hyphen s = true ->
  no_double_hyphen (strip_trailing_hyphens s) = true.
Proof.
  induction s as [|c t IH]; simpl; [auto |].
  intro H. apply andb_true_iff in H as [H1 H2].
  specialize (IH H2).
  destruct (strip_trailing_hyphens t) as [|d u] eqn:E.
  - destruct (is_hyphen c) eqn:Ec; simpl; rewrite ?Ec; reflexivity.
  - destruct (strip_trailing_hyphens_head t u d E) as [rest ->].
    simpl in *. rewrite H1. exact IH.
Qed.

Lemma strip_trailing_hyphens_app (x y : jsstring) (c : code_unit) :
  is_hyphen c = false ->
  strip_trailing_hyphens (x ++ c :: y) = x ++ c :: strip_trailing_hyphens y.
Proof.
  intro Hc. induction x as [|a x IH].
  - apply strip_trailing_hyphens_cons. exact Hc.
  - change ((a :: x) ++ c :: y) with (a :: (x ++ c :: y)).
    cbn [strip_trailing_hyphens]. rewrite IH.
    destruct x; reflexivity.
Qed.

Lemma strip_trailing_hyphens_id (s : jsstring) :
  ends_with_hyphen s = false -> strip_trailing_hyphens s = s.
Proof.
  induction s as [|c t IH]; simpl; [reflexivity |].
  destruct t as [|d t'].
  - intro H. simpl. rewrite H. reflexivity.
  - intro H. rewrite (IH H). reflexivity.
Qed.

Lemma strip_trailing_hyphens_prefix (s : jsstring) :
  prefix_of (strip_trailing_hyphens s) s.
Proof.
  induction s as [|c t [rest IH]]; simpl.
  - exists []. reflexivity.
  - destruct (strip_trailing_hyphens t) as [|d u].
    + destruct (is_hyphen c).
      * exists (c :: t). reflexivity.
      * exists t. reflexivity.
    + exists rest. simpl. f_equal. exact IH.
Qed.

Lemma slice0_prefix (s : jsstring) (n : Z) : prefix_of (slice0 s n) s.
Proof.
  unfold slice0, prefix_of.
  destruct (n <? 0)%Z; eexists; symmetry; apply firstn_skipn.
Qed.

Lemma prefix_of_trans (a b c : jsstring) :
  prefix_of a b -> prefix_of b c -> prefix_of a c.
Proof.
  intros [r1 ->] [r2 ->]. exists (r1 ++ r2). symmetry. apply app_assoc.
Qed.

(** A token cut at a positive length and stripped of the hyphens at its
    end is a token. *)
Lemma cut_token (t : jsstring) (n : Z) :
  token t -> (1 <= n)%Z -> token (strip_trailing_hyphens (slice0 t n)).
Proof.
  intros Tk Hn.
  destruct (token_head t Tk) as (c & u & E & Hc).
  assert (Hd : no_double_hyphen (strip_trailing_hyphens (slice0 t n)) = true).
  { apply strip_trailing_hyphens_no_double. unfold slice0.
    destruct (n <? 0)%Z; apply firstn_no_double, token_no_double; exact Tk. }
  assert (Hcl : all_in_class (strip_trailing_hyphens (slice0 t n))).
  { apply strip_trailing_hyphens_in_class, slice0_in_class, token_in_class.
    exact Tk. }
  pose proof (strip_trailing_hyphens_end (slice0 t n)) as He.
  destruct (shape_token _ Hcl Hd He) as [S _].
  rewrite E in *.
  rewrite (slice0_cons c u n Hn),
    (strip_trailing_hyphens_cons c _ (alnum_not_hyphen c Hc)) in *.
  destruct S as [S | S]; [apply (alnum_not_hyphen c Hc) | discriminate S |
                          exact S].
Qed.

(** ** sanitize *)

(** X1: [sanitize] is idempotent, and the strings it leaves unchanged are
    exactly the empty string and the strings that match
    [^[a-z0-9]+(-[a-z0-9]+)*$]. *)
Theorem X1_sanitize_fixed_points (s : jsstring) :
  sanitize (sanitize s) = sanitize s
  /\ (sanitize s = s <-> s = [] \/ full_match token_re s = true).
Proof.
  split; [apply sanitize_idempotent |].
  split.
  - intro E. destruct (sanitize_token s) as [E0 | Tk].
    + left. congruence.
    + right. apply token_full_match. rewrite <- E. exact Tk.
  - intros [-> | M]; [reflexivity |].
    apply sanitize_token_id, token_full_match. exact M.
Qed.

Lemma replace_outside_class_keeps (c : code_unit) (x : jsstring) :
  is_alnum c = true -> In c x -> In c (replace_outside_class x).
Proof.
  intros Hc Hin. unfold replace_outside_class.
  apply in_map_iff. exists c. split; [| exact Hin].
  rewrite (alnum_in_class c Hc). reflexivity.
Qed.

Lemma collapse_hyphens_keeps (c : code_unit) (x : jsstring) :
  is_hyphen c = false -> In c x -> In c (collapse_hyphens x).
Proof.
  intro Hc. induction x as [|d t IH]; simpl; [auto |].
  intros [-> | Hin].
  - rewrite Hc. simpl. left. reflexivity.
  - destruct (is_hyphen d && starts_with_hyphen t); simpl; auto.
Qed.

Lemma strip_leading1_keeps (c : code_unit) (x : jsstring) :
  is_hyphen c = false -> In c x -> In c (strip_leading1 x).
Proof.
  intro Hc. destruct x as [|d t]; simpl; [auto |].
  destruct (is_hyphen d) eqn:Ed; [| auto].
  intros [-> | Hin]; [congruence | exact Hin].
Qed.

Lemma strip_trailing1_keeps (c : code_unit) (x : jsstring) :
  is_hyphen c = false -> In c x -> In c (strip_trailing1 x).
Proof.
  intro Hc. induction x as [|d t IH]; [auto |].
  intros [-> | Hin].
  - destruct t; simpl; [rewrite Hc |]; left; reflexivity.
  - destruct t as [|e t']; [contradiction |].
    change (strip_trailing1 (d :: e :: t'))
      with (d :: strip_trailing1 (e :: t')).
    right. apply IH. exact Hin.
Qed.

(** A letter or digit of the lower-cased input is in the output. *)
Lemma sanitize_keeps (c : code_unit) (s : jsstring) :
  is_alnum c = true -> In c (toLowerCase s) -> In c (sanitize s).
Proof.
  intros Hc Hin. pose proof (alnum_not_hyphen c Hc) as Hh.
  unfold sanitize, strip_edges.
  apply strip_trailing1_keeps, strip_leading1_keeps, collapse_hyphens_keeps,
    replace_outside_class_keeps; assumption.
Qed.

Lemma replace_outside_class_hyphens (x : jsstring) :
  no_alnum x ->
  Forall (fun c => is_hyphen c = true) (replace_outside_class x).
Proof.
  induction 1 as [|c t Hc _ IH]; simpl; constructor; [| exact IH].
  unfold in_class. rewrite Hc. simpl.
  destruct (is_hyphen c) eqn:E; [exact E | reflexivity].
Qed.

Lemma collapse_hyphens_hyphens (x : jsstring) :
  Forall (fun c => is_hyphen c = true) x ->
  collapse_hyphens x = []
  \/ exists c, collapse_hyphens x = [c] /\ is_hyphen c = true.
Proof.
  induction 1 as [|c t Hc Ht IH]; simpl; [auto |].
  rewrite Hc. simpl.
  destruct t as [|d t'].
  - right. exists c. auto.
  - inversion Ht as [|? ? Hd _]; subst.
    cbn [starts_with_hyphen]. rewrite Hd. exact IH.
Qed.

Lemma sanitize_empty_iff (s : jsstring) :
  sanitize s = [] <-> no_alnum (toLowerCase s).
Proof.
  split.
  - intro E. apply Forall_forall. intros c Hin.
    destruct (is_alnum c) eqn:Hc; [| reflexivity].
    pose proof (sanitize_keeps c s Hc Hin) as K.
    rewrite E in K. contradiction.
  - intro H. unfold sanitize, strip_edges.
    destruct (collapse_hyphens_hyphens _
                (replace_outside_class_hyphens _ H))
      as [-> | (c & -> & Hc)].
    + reflexivity.
    + simpl. rewrite Hc. reflexivity.
Qed.

(** X2: [sanitize s] is the empty string exactly when the lower-cased
    input holds no letter [a-z] and no digit; every letter or digit of the
    lower-cased input is kept in the output. *)
Theorem X2_sanitize_empty_iff_no_alnum (s : jsstring) :
  (sanitize s = [] <-> no_alnum (toLowerCase s))
  /\ (forall c, is_alnum c = true -> In c (toLowerCase s) -> In c (sanitize s)).
Proof.
  split; [apply sanitize_empty_iff |].
  intros c. apply sanitize_keeps.
Qed.

(** X3: the prefix of the resource names is always ["dify-"] followed by
    the environment name, which is the sanitized label, or ["env"] when
    the label holds no letter or digit; the prefix matches the pattern of
    a token, so the fallback ['dify'] of line 51 is never used. *)
Theorem X3_resourceNamePrefix_shape (props : Props.t) :
  resourceNamePrefix props = str "dify-" ++ environmentName props
  /\ full_match token_re (resourceNamePrefix props) = true
  /\ (no_alnum (toLowerCase (environmentNameInput props)) ->
      resourceNamePrefix props = str "dify-env")
  /\ (~ no_alnum (toLowerCase (environmentNameInput props)) ->
      environmentName props = sanitize (environmentNameInput props)).
Proof.
  split; [apply resourceNamePrefix_eq |].
  split; [apply token_full_match, resourceNamePrefix_token |].
  split.
  - intro H. rewrite resourceNamePrefix_eq. unfold environmentName.
    apply sanitize_empty_iff in H. rewrite H. reflexivity.
  - intro H. unfold environmentName.
    destruct (sanitize (environmentNameInput props)) as [|c t] eqn:E;
      [| reflexivity].
    exfalso. apply H, sanitize_empty_iff. exact E.
Qed.

(** ** buildName *)

Lemma joined_name_token (prefix suffix : jsstring) :
  token prefix -> token (joined_name prefix suffix).
Proof.
  intro Tk. unfold joined_name. cbn [filter].
  rewrite (nonempty_token prefix Tk).
  destruct (sanitize_token suffix) as [E | Ts].
  - rewrite E. simpl. exact Tk.
  - rewrite (nonempty_token _ Ts).
    change (join (str "-") [prefix; sanitize suffix])
      with (prefix ++ hyphen :: sanitize suffix).
    apply token_join; assumption.
Qed.

Lemma buildName_exact (prefix suffix : jsstring) (maxLength : Z) :
  token prefix -> (1 <= maxLength)%Z ->
  buildName prefix suffix maxLength
  = strip_trailing_hyphens (slice0 (joined_name prefix suffix) maxLength).
Proof.
  intros Tk Hn.
  pose proof (joined_name_token prefix suffix Tk) as Tj.
  pose proof (cut_token _ maxLength Tj Hn) as Tc.
  unfold buildName. fold (joined_name prefix suffix).
  rewrite (sanitize_token_id _ Tj).
  destruct (token_head _ Tc) as (c & u & E & _).
  rewrite E. cbn [or_else]. rewrite <- E.
  apply slice0_all.
  pose proof (strip_trailing_hyphens_length
                (slice0 (joined_name prefix suffix) maxLength)).
  pose proof (slice0_length (joined_name prefix suffix) maxLength). lia.
Qed.

(** X4: for [maxLength >= 1] the name [buildName] returns is the joined
    name [prefix-suffix] (the prefix alone when the suffix sanitizes to
    nothing) cut at [maxLength] with the hyphens at its end removed: the
    second sanitize changes nothing and no fallback is used.  The name is a
    start of the joined name and matches the pattern of a token. *)
Theorem X4_buildName_is_cut_joined_name
  (props : Props.t) (suffix : jsstring) (maxLength : Z) :
  (1 <= maxLength)%Z ->
  let joined := joined_name (resourceNamePrefix props) suffix in
  let name := buildName (resourceNamePrefix props) suffix maxLength in
  name = strip_trailing_hyphens (slice0 joined maxLength)
  /\ prefix_of name joined
  /\ full_match token_re name = true.
Proof.
  intros Hn joined name.
  pose proof (resourceNamePrefix_token props) as Tk.
  assert (E : name = strip_trailing_hyphens (slice0 joined maxLength))
    by (apply buildName_exact; assumption).
  split; [exact E |]. rewrite E. split.
  - apply (prefix_of_trans _ (slice0 joined maxLength) _).
    + apply strip_trailing_hyphens_prefix.
    + apply slice0_prefix.
  - apply token_full_match, cut_token; [| exact Hn].
    apply joined_name_token. exact Tk.
Qed.

Lemma X4_buildName_is_cut_joined_name_witness :
  let joined := joined_name (resourceNamePrefix Props.empty) (str "My Cluster") in
  let name := buildName (resourceNamePrefix Props.empty) (str "My Cluster") 12 in
  name = strip_trailing_hyphens (slice0 joined 12)
  /\ prefix_of name joined
  /\ full_match token_re name = true.
Proof.
  apply (X4_buildName_is_cut_joined_name Props.empty (str "My Cluster") 12).
  lia.
Defined.

(** X5: when the joined name fits into [maxLength] it is returned whole:
    [prefix-suffix] with the sanitized suffix, or the prefix alone when the
    suffix sanitizes to the empty string. *)
Theorem X5_buildName_whole_when_it_fits
  (props : Props.t) (suffix : jsstring) (maxLength : Z) :
  (1 <= maxLength)%Z ->
  (Z.of_nat (length (joined_name (resourceNamePrefix props) suffix))
   <= maxLength)%Z ->
  buildName (resourceNamePrefix props) suffix maxLength
  = if nonempty (sanitize suffix)
    then resourceNamePrefix props ++ str "-" ++ sanitize suffix
    else resourceNamePrefix props.
Proof.
  intros Hn Hl.
  pose proof (resourceNamePrefix_token props) as Tk.
  rewrite (buildName_exact _ suffix maxLength Tk Hn).
  rewrite (slice0_all _ maxLength Hl).
  rewrite (strip_trailing_hyphens_id _
             (token_end _ (joined_name_token _ suffix Tk))).
  unfold joined_name. cbn [filter].
  rewrite (nonempty_token _ Tk).
  destruct (nonempty (sanitize suffix)); reflexivity.
Qed.

Lemma X5_buildName_whole_when_it_fits_witness :
  buildName (resourceNamePrefix Props.empty) (str "cluster") 255
  = if nonempty (sanitize (str "cluster"))
    then resourceNamePrefix Props.empty ++ str "-" ++ sanitize (str "cluster")
    else resourceNamePrefix Props.empty.
Proof.
  apply (X5_buildName_whole_when_it_fits Props.empty (str "cluster") 255).
  - lia.
  - vm_compute. discriminate.
Defined.

(** X6: for every prefix, suffix and [maxLength >= 0] the name has at most
    [maxLength] code units; with [maxLength = 0] it is the empty string,
    whatever the prefix. *)
Theorem X6_buildName_length_any_prefix
  (prefix suffix : jsstring) (maxLength : Z) :
  (0 <= maxLength)%Z ->
  (Z.of_nat (length (buildName prefix suffix maxLength)) <= maxLength)%Z
  /\ buildName prefix suffix 0 = [].
Proof.
  intro Hn. split.
  - unfold buildName. apply slice0_length. exact Hn.
  - unfold buildName. unfold slice0 at 1. reflexivity.
Qed.

Lemma X6_buildName_length_any_prefix_witness :
  (Z.of_nat (length (buildName [] (str "--") 3)) <= 3)%Z
  /\ buildName [] (str "--") 0 = [].
Proof.
  apply (X6_buildName_length_any_prefix [] (str "--") 3). lia.
Defined.

(** ** The bucket names *)

Lemma segment_token (x : option jsstring) : segment x = [] \/ token (segment x).
Proof.
  destruct x as [a |]; simpl; [apply sanitize_token | left; reflexivity].
Qed.

Lemma bucket_parts (p : jsstring) (account region : option jsstring) :
  map (fun part : option jsstring => with_default part [])
    (filter
       (fun part : option jsstring =>
          (0 <? with_default (option_map (@length _) part) 0)%nat)
       [Some p; accountSegment account; regionSegment region])
  = filter nonempty [p; segment account; segment region].
Proof.
  unfold accountSegment, regionSegment, segment, nonempty.
  destruct account as [a |], region as [r |];
    cbn [filter map option_map with_default];
    try change (0 <? @length N [])%nat with false;
    repeat match goal with
      | |- context [(0 <? length ?x)%nat] => destruct (0 <? length x)%nat
      end; reflexivity.
Qed.

Lemma bucketPrefix_exact (props : Props.t) (account region : option jsstring) :
  bucketPrefix props account region
  = join (str "-")
      (filter nonempty
         [resourceNamePrefix props; segment account; segment region])
  /\ token (bucketPrefix props account region).
Proof.
  pose proof (resourceNamePrefix_token props) as Tk.
  unfold bucketPrefix. rewrite bucket_parts.
  assert (T : token (join (str "-")
                       (filter nonempty
                          [resourceNamePrefix props; segment account;
                           segment region]))).
  { cbn [filter]. rewrite (nonempty_token _ Tk).
    destruct (segment_token account) as [Ea | Ta],
             (segment_token region) as [Er | Tr];
      rewrite ?Ea, ?Er, ?(nonempty_token _ Ta), ?(nonempty_token _ Tr);
      try change (nonempty []) with false; cbv iota.
    - exact Tk.
    - apply (token_join _ _ Tk Tr).
    - apply (token_join _ _ Tk Ta).
    - apply (token_join _ _ Tk). apply (token_join _ _ Ta Tr). }
  rewrite (sanitize_token_id _ T). split; [reflexivity | exact T].
Qed.

(** X7: the bucket prefix is the resource-name prefix joined by hyphens
    with the sanitized account and region; a segment that is unresolved, or
    that sanitizes to the empty string, is left out, so that without both
    the bucket prefix is the resource-name prefix.  The sanitize around the
    join changes nothing: the joined segments match the pattern of a
    token. *)
Theorem X7_bucketPrefix_segments
  (props : Props.t) (account region : option jsstring) :
  bucketPrefix props account region
  = join (str "-")
      (filter nonempty
         [resourceNamePrefix props; segment account; segment region])
  /\ bucketPrefix props None None = resourceNamePrefix props
  /\ full_match token_re (bucketPrefix props account region) = true.
Proof.
  destruct (bucketPrefix_exact props account region) as [E T].
  split; [exact E |]. split.
  - destruct (bucketPrefix_exact props None None) as [E0 _].
    rewrite E0.
    destruct (token_head _ (resourceNamePrefix_token props))
      as (c & t & -> & _).
    reflexivity.
  - apply token_full_match. exact T.
Qed.

Lemma bucketCandidate_token
  (props : Props.t) (account region : option jsstring) (suffix : jsstring) :
  token (bucketCandidate (resourceNamePrefix props)
           (bucketPrefix props account region) suffix).
Proof.
  unfold bucketCandidate.
  destruct (bucketPrefix_exact props account region) as [_ Tb].
  set (bp := bucketPrefix props account region) in *.
  destruct (token_head bp Tb) as (c & t & E & Hc).
  assert (B : or_else bp (resourceNamePrefix props) = bp)
    by (rewrite E; reflexivity).
  rewrite B.
  assert (F : filter nonempty [bp; suffix] = bp :: filter nonempty [suffix]).
  { cbn [filter]. rewrite (nonempty_token bp Tb). reflexivity. }
  rewrite F.
  destruct (join_cons (str "-") bp (filter nonempty [suffix])) as [x ->].
  rewrite (sanitize_token_app bp x Tb).
  apply cut_token; [| lia].
  rewrite <- (sanitize_token_app bp x Tb).
  destruct (sanitize_token (bp ++ x)) as [E0 | T0]; [| exact T0].
  rewrite (sanitize_token_app bp x Tb), E in E0. discriminate E0.
Qed.

(** X8: in the stack the padding of [buildBucketName] is never used: the
    bucket name is the composed, cut and stripped candidate, it starts with
    ["dify-"], and it matches the pattern of a token, so that it begins and
    ends with a letter or digit. *)
Theorem X8_bucket_name_is_candidate
  (props : Props.t) (account region : option jsstring) (suffix : jsstring) :
  let name :=
    buildBucketName (resourceNamePrefix props)
      (bucketPrefix props account region) suffix in
  name = bucketCandidate (resourceNamePrefix props)
           (bucketPrefix props account region) suffix
  /\ prefix_of (str "dify-") name
  /\ full_match token_re name = true.
Proof.
  intro name. subst name. unfold buildBucketName.
  pose proof (bucketCandidate_length_ge props account region suffix) as Hge.
  destruct (Nat.ltb_spec
              (length
                 (bucketCandidate (resourceNamePrefix props)
                    (bucketPrefix props account region) suffix)) 3)
    as [Hlt | _]; [lia |].
  split; [reflexivity |]. split.
  - destruct (bucketCandidate_eq props account region suffix) as [z ->].
    rewrite resourceNamePrefix_eq.
    destruct (token_head _ (environmentName_token props))
      as (e & t & -> & He).
    change (str "dify-") with [100; 105; 102; 121; hyphen]%N.
    cbn [app].
    rewrite (slice0_cons 100%N _ 63) by lia.
    rewrite (slice0_cons 105%N _ (63 - 1)) by lia.
    rewrite (slice0_cons 102%N _ (63 - 1 - 1)) by lia.
    rewrite (slice0_cons 121%N _ (63 - 1 - 1 - 1)) by lia.
    rewrite (slice0_cons hyphen _ (63 - 1 - 1 - 1 - 1)) by lia.
    rewrite (slice0_cons e _ (63 - 1 - 1 - 1 - 1 - 1)) by lia.
    match goal with
    | |- context [slice0 ?w ?k] =>
        pose proof (strip_trailing_hyphens_app
                      [100; 105; 102; 121; hyphen]%N (slice0 w k) e
                      (alnum_not_hyphen e He)) as R
    end.
    cbn [app] in R. rewrite R.
    eexists. reflexivity.
  - apply token_full_match, bucketCandidate_token.
Qed.

Lemma bucketCandidate_token_suffix
  (prefix bp suffix : jsstring) :
  token bp -> token suffix ->
  bucketCandidate prefix bp suffix
  = strip_trailing_hyphens (slice0 (bp ++ hyphen :: suffix) 63).
Proof.
  intros Tb Ts. unfold bucketCandidate.
  destruct (token_head bp Tb) as (c & t & E & Hc).
  assert (B : or_else bp prefix = bp) by (rewrite E; reflexivity).
  rewrite B. cbn [filter].
  rewrite (nonempty_token bp Tb), (nonempty_token suffix Ts).
  change (join (str "-") [bp; suffix]) with (bp ++ hyphen :: suffix).
  rewrite (sanitize_token_id _ (token_join bp suffix Tb Ts)).
  reflexivity.
Qed.

Lemma firstn_short_tail (bp x : jsstring) :
  (62 <= length bp)%nat ->
  firstn 63 (bp ++ hyphen :: x) = firstn 63 (bp ++ [hyphen]).
Proof.
  intro H. rewrite !firstn_app. f_equal.
  destruct (63 - length bp)%nat as [|[|n]] eqn:E; try reflexivity. lia.
Qed.

Lemma firstn_long_tail (bp x : jsstring) (c : code_unit) :
  (length bp <= 61)%nat ->
  firstn 63 (bp ++ hyphen :: c :: x)
  = bp ++ hyphen :: c :: firstn (61 - length bp) x.
Proof.
  intro H. rewrite firstn_app.
  rewrite firstn_all2 by lia. f_equal.
  replace (63 - length bp)%nat with (S (S (61 - length bp))) by lia.
  reflexivity.
Qed.

(** X9: the name of the access-log bucket and the name of the storage
    bucket are the same exactly when the bucket prefix has 62 code units or
    more: then the cut at 63 removes what tells them apart. *)
Theorem X9_bucket_names_collide_iff
  (props : Props.t) (account region : option jsstring) :
  accessLogBucketName (resources props account region)
  = storageBucketName (resources props account region)
  <-> (62 <= length (bucketPrefix props account region))%nat.
Proof.
  destruct (bucketPrefix_exact props account region) as [_ Tb].
  unfold resources. cbn [accessLogBucketName storageBucketName].
  assert (Ea : buildBucketName (resourceNamePrefix props)
                 (bucketPrefix props account region) (str "access-logs")
               = strip_trailing_hyphens
                   (slice0 (bucketPrefix props account region
                            ++ hyphen :: str "access-logs") 63)).
  { unfold buildBucketName.
    pose proof (bucketCandidate_length_ge props account region
                  (str "access-logs")) as Hge.
    destruct (Nat.ltb_spec
                (length
                   (bucketCandidate (resourceNamePrefix props)
                      (bucketPrefix props account region)
                      (str "access-logs"))) 3) as [Hlt | _]; [lia |].
    apply bucketCandidate_token_suffix; [exact Tb |].
    apply token_full_match. reflexivity. }
  assert (Es : buildBucketName (resourceNamePrefix props)
                 (bucketPrefix props account region) (str "storage")
               = strip_trailing_hyphens
                   (slice0 (bucketPrefix props account region
                            ++ hyphen :: str "storage") 63)).
  { unfold buildBucketName.
    pose proof (bucketCandidate_length_ge props account region
                  (str "storage")) as Hge.
    destruct (Nat.ltb_spec
                (length
                   (bucketCandidate (resourceNamePrefix props)
                      (bucketPrefix props account region)
                      (str "storage"))) 3) as [Hlt | _]; [lia |].
    apply bucketCandidate_token_suffix; [exact Tb |].
    apply token_full_match. reflexivity. }
  rewrite Ea, Es. clear Ea Es.
  set (bp := bucketPrefix props account region) in *.
  unfold slice0. change (63 <? 0)%Z with false. cbv iota.
  change (Z.to_nat 63) with 63%nat.
  split.
  - intro E.
    destruct (Nat.le_gt_cases 62 (length bp)) as [H | H]; [exact H |].
    exfalso.
    change (str "access-logs") with (97%N :: str "ccess-logs") in E.
    change (str "storage") with (115%N :: str "torage") in E.
    rewrite !firstn_long_tail in E by lia.
    assert (Ra : forall (c : code_unit) (x : jsstring),
               bp ++ hyphen :: c :: x = (bp ++ [hyphen]) ++ c :: x).
    { intros. rewrite <- app_assoc. reflexivity. }
    rewrite (Ra 97%N), (Ra 115%N) in E.
    rewrite (strip_trailing_hyphens_app _ _ 97%N eq_refl) in E.
    rewrite (strip_trailing_hyphens_app _ _ 115%N eq_refl) in E.
    apply app_inv_head in E. discriminate E.
  - intro H.
    rewrite (firstn_short_tail bp (str "access-logs") H),
      (firstn_short_tail bp (str "storage") H).
    reflexivity.
Qed.

(** ** More on the checks *)

Ltac differ H :=
  apply Throw_inj in H; apply (f_equal (firstn 20)) in H;
  vm_compute in H; discriminate H.

(** X10: validation raises the error of the sub-domain exactly when the
    two rules before it are not violated, [domainName] is left out and
    [subDomain] is set. *)
Theorem X10_subDomain_error_iff (props : Props.t) :
  run (validate props) = Throw subDomain_message
  <-> vpc_conflict props = false
      /\ internalAlb_conflict props = false
      /\ Props.domainName props = None
      /\ Props.subDomain props <> None.
Proof.
  unfold run. rewrite validate_steps. unfold subDomain_conflict.
  split.
  - intro H.
    destruct (vpc_conflict props); [differ H |].
    destruct (internalAlb_conflict props); [differ H |].
    destruct (Props.domainName props) as [d |],
             (Props.subDomain props) as [sd |]; simpl in H;
      try (repeat split; congruence);
      repeat match type of H with
        | (if ?b then _ else _) = _ => destruct b
        end; try discriminate H; differ H.
  - intros (-> & -> & -> & Hs).
    destruct (Props.subDomain props); [reflexivity | congruence].
Qed.

(** X11: validation raises the error of the email setup exactly when the
    two rules before the sub-domain rule are not violated, [domainName] and
    [subDomain] are left out and [setupEmail] is true. *)
Theorem X11_setupEmail_error_iff (props : Props.t) :
  run (validate props) = Throw setupEmail_message
  <-> vpc_conflict props = false
      /\ internalAlb_conflict props = false
      /\ Props.domainName props = None
      /\ Props.subDomain props = None
      /\ Props.setupEmail props = Some true.
Proof.
  unfold run. rewrite validate_steps.
  unfold subDomain_conflict, setupEmail_conflict.
  split.
  - intro H.
    destruct (vpc_conflict props); [differ H |].
    destruct (internalAlb_conflict props); [differ H |].
    destruct (Props.domainName props) as [d |],
             (Props.subDomain props) as [sd |],
             (Props.setupEmail props) as [[|] |]; simpl in H;
      try (repeat split; congruence);
      repeat match type of H with
        | (if ?b then _ else _) = _ => destruct b
        end; try discriminate H; differ H.
  - intros (-> & -> & -> & -> & ->). reflexivity.
Qed.

Lemma validate_accepts (props : Props.t) (ws : list Annotation) :
  run (validate props) = Done (tt, ws)
  <-> (vpc_conflict props = false
       /\ internalAlb_conflict props = false
       /\ subDomain_conflict props = false
       /\ setupEmail_conflict props = false
       /\ filtered props = [])
      /\ ws = advisories props.
Proof.
  unfold run. rewrite validate_steps. unfold secretName_conflict.
  split.
  - intro H.
    destruct (vpc_conflict props); [discriminate H |].
    destruct (internalAlb_conflict props); [discriminate H |].
    destruct (subDomain_conflict props); [discriminate H |].
    destruct (setupEmail_conflict props); [discriminate H |].
    destruct (filtered props) as [|n rest]; [| discriminate H].
    simpl in H. injection H as <-. auto 10.
  - intros [(-> & -> & -> & -> & ->) ->]. reflexivity.
Qed.

(** X12: a configuration that is accepted gets at most one annotation; it
    gets the warning about the load balancer without encryption exactly
    when [useCloudFront] as given is not true, [domainName] is left out and
    [internalAlb] is not true.  With a [domainName], or with
    [useCloudFront: true] written out, there is no warning. *)
Theorem X12_advisory_iff (props : Props.t) (ws : list Annotation) :
  run (validate props) = Done (tt, ws) ->
  (ws = [] \/ ws = [albWithoutEncryption])
  /\ (ws = [albWithoutEncryption]
      <-> Props.useCloudFront props <> Some true
          /\ Props.domainName props = None
          /\ Props.internalAlb props <> Some true).
Proof.
  intro H. apply validate_accepts in H as [_ ->].
  unfold advisories, advisory_due, internalAlb.
  destruct (Props.useCloudFront props) as [[|] |],
           (Props.domainName props) as [d |],
           (Props.internalAlb props) as [[|] |]; simpl;
    (split; [auto |]);
    (split; [intro H; try discriminate H; repeat split; congruence
            | intros (H1 & H2 & H3); try reflexivity; congruence]).
Qed.

Lemma X12_advisory_iff_witness :
  ([albWithoutEncryption] = [] \/ [albWithoutEncryption] = [albWithoutEncryption])
  /\ ([albWithoutEncryption] = [albWithoutEncryption]
      <-> Props.useCloudFront public_plain_alb <> Some true
          /\ Props.domainName public_plain_alb = None
          /\ Props.internalAlb public_plain_alb <> Some true).
Proof.
  apply (X12_advisory_iff public_plain_alb [albWithoutEncryption]).
  reflexivity.
Defined.

(** ** The parts the constructor hands on *)

Lemma new_completes
  (props : Props.t) (account region : option jsstring)
  (stack : DifyOnAwsStack.t) (ws : list Annotation) :
  run (new props account region) = Done (stack, ws) ->
  run (validate props) = Done (tt, ws)
  /\ stack = resources props account region.
Proof.
  rewrite new_run.
  destruct (run (validate props)) as [m | [[] w]]; [discriminate |].
  destruct (truthy_string (Props.domainName props)
            && (is_null account || is_null region)); [discriminate |].
  intro H. injection H as <- <-. auto.
Qed.

(** The constructor completes with a non-empty [domainName] only in a stack
    whose account and region are resolved. *)
Lemma new_completes_lookup
  (props : Props.t) (account region : option jsstring)
  (stack : DifyOnAwsStack.t) (ws : list Annotation) :
  run (new props account region) = Done (stack, ws) ->
  truthy_string (Props.domainName props) = true ->
  account <> None /\ region <> None.
Proof.
  rewrite new_run. intros H T. rewrite T in H.
  destruct (run (validate props)) as [m | [[] w]]; [discriminate |].
  destruct account, region; simpl in H;
    try discriminate H; split; discriminate.
Qed.

(** X13: when the constructor completes, the load balancer with CloudFront
    is wired in unless [useCloudFront] is false, and then [internalAlb] was
    left out; with [useCloudFront: false] the plain load balancer is wired
    in, internal exactly when [internalAlb] is true.  Without a
    [domainName] the sub-domain handed on is ["dify"], and an internal load
    balancer never comes with the warning. *)
Theorem X13_load_balancer_wiring
  (props : Props.t) (account region : option jsstring)
  (stack : DifyOnAwsStack.t) (ws : list Annotation) :
  run (new props account region) = Done (stack, ws) ->
  (Props.useCloudFront props <> Some false ->
   alb stack = AlbWithCloudFront (subDomain props)
   /\ Props.internalAlb props = None)
  /\ (Props.useCloudFront props = Some false ->
      alb stack
      = Alb (truthy_bool (Props.internalAlb props)) (subDomain props))
  /\ (Props.domainName props = None -> subDomain props = str "dify")
  /\ (Props.internalAlb props = Some true -> ws = []).
Proof.
  intro H. apply new_completes in H as [V ->].
  apply validate_accepts in V as [(_ & Hi & Hs & _ & _) ->].
  unfold resources, advisories, advisory_due. cbn [alb].
  unfold internalAlb_conflict, subDomain_conflict in *.
  unfold useCloudFront, internalAlb, subDomain in *.
  destruct (Props.useCloudFront props) as [[|] |],
           (Props.internalAlb props) as [[|] |],
           (Props.domainName props) as [d |],
           (Props.subDomain props) as [sd |];
    simpl in *; try discriminate;
    repeat split; intros; try congruence; try reflexivity.
Qed.

Lemma X13_load_balancer_wiring_witness :
  (Props.useCloudFront public_plain_alb <> Some false ->
   alb (resources public_plain_alb None None)
   = AlbWithCloudFront (subDomain public_plain_alb)
   /\ Props.internalAlb public_plain_alb = None)
  /\ (Props.useCloudFront public_plain_alb = Some false ->
      alb (resources public_plain_alb None None)
      = Alb (truthy_bool (Props.internalAlb public_plain_alb))
          (subDomain public_plain_alb))
  /\ (Props.domainName public_plain_alb = None ->
      subDomain public_plain_alb = str "dify")
  /\ (Props.internalAlb public_plain_alb = Some true ->
      [albWithoutEncryption] = []).
Proof.
  apply (X13_load_balancer_wiring public_plain_alb None None
           (resources public_plain_alb None None) [albWithoutEncryption]).
  reflexivity.
Defined.

(** X14: when the constructor completes with [setupEmail: true], a
    [domainName] was given, and the email service is created exactly when
    that name is not the empty string: an empty [domainName] passes the
    check of line 90 and leaves the stack without the email service.  With
    a non-empty [domainName] the constructor completes only when the
    account and the region of the stack are resolved, as the lookup of the
    hosted zone asks. *)
Theorem X14_email_needs_nonempty_domain
  (props : Props.t) (account region : option jsstring)
  (stack : DifyOnAwsStack.t) (ws : list Annotation) :
  run (new props account region) = Done (stack, ws) ->
  Props.setupEmail props = Some true ->
  exists domain,
    Props.domainName props = Some domain
    /\ (email stack = true <-> domain <> [])
    /\ (domain <> [] -> account <> None /\ region <> None).
Proof.
  intros H He.
  pose proof (new_completes_lookup props account region stack ws H) as L.
  apply new_completes in H as [V ->].
  apply validate_accepts in V as [(_ & _ & _ & Hm & _) _].
  unfold setupEmail_conflict in Hm. rewrite He in Hm. simpl in Hm.
  destruct (Props.domainName props) as [d |] eqn:Ed; [| discriminate Hm].
  exists d. split; [reflexivity |].
  unfold resources. cbn [email]. rewrite Ed, He. simpl.
  rewrite andb_true_r. destruct d as [|c d].
  - split; [| intro N; contradiction N; reflexivity].
    split; [discriminate | intro N; contradiction N; reflexivity].
  - split; [| intros _; apply L; reflexivity].
    split; [discriminate | reflexivity].
Qed.

Lemma X14_email_needs_nonempty_domain_witness :
  exists domain,
    Props.domainName empty_domain_with_email = Some domain
    /\ (email (resources empty_domain_with_email
                 (Some (str "123456789012")) (Some (str "us-west-2"))) = true
        <-> domain <> [])
    /\ (domain <> [] ->
        Some (str "123456789012") <> None /\ Some (str "us-west-2") <> None).
Proof.
  apply (X14_email_needs_nonempty_domain empty_domain_with_email
           (Some (str "123456789012")) (Some (str "us-west-2"))
           (resources empty_domain_with_email
              (Some (str "123456789012")) (Some (str "us-west-2"))) []);
    reflexivity.
Defined.

(** With a domain, in a stack without account and region, the lookup of
    the hosted zone throws. *)
Example domain_without_environment_throws :
  run (new domain_with_email None None)
  = Throw (lookup_message (str "hosted-zone")).
Proof. reflexivity. Qed.

(** ** The names of the web service and of Redis *)

Lemma token_literal_web : token (str "web").
Proof. apply token_full_match. reflexivity. Qed.

Lemma token_literal_redis : token (str "redis").
Proof. apply token_full_match. reflexivity. Qed.

Lemma token_literal_redis_subnets : token (str "redis-subnets").
Proof. apply token_full_match. reflexivity. Qed.

(** X15: when the prefix has at most 251 code units, the task family and
    the service name of the web service are the whole [prefix-web]: nothing
    is cut, the name matches the pattern of a token, and the name of the
    log group is ["/aws/ecs/"] followed by it. *)
Theorem X15_web_names_whole_when_they_fit (props : Props.t) :
  (length (resourceNamePrefix props) <= 251)%nat ->
  let web := WebService.new (resourceNamePrefix props) in
  WebService.taskFamily web = resourceNamePrefix props ++ str "-web"
  /\ WebService.serviceName web = WebService.taskFamily web
  /\ full_match token_re (WebService.taskFamily web) = true
  /\ WebService.logGroupName web = str "/aws/ecs/" ++ WebService.taskFamily web.
Proof.
  intros Hl web. subst web. unfold WebService.new.
  cbn [WebService.taskFamily WebService.serviceName WebService.logGroupName].
  assert (E : slice0 (resourceNamePrefix props ++ str "-web") 255
              = resourceNamePrefix props ++ str "-web").
  { apply slice0_all. rewrite length_app.
    change (length (str "-web")) with 4%nat. lia. }
  rewrite E. repeat split.
  apply token_full_match.
  apply (token_join _ (str "web") (resourceNamePrefix_token props)
           token_literal_web).
Qed.

Lemma X15_web_names_whole_when_they_fit_witness :
  let web := WebService.new (resourceNamePrefix Props.empty) in
  WebService.taskFamily web = resourceNamePrefix Props.empty ++ str "-web"
  /\ WebService.serviceName web = WebService.taskFamily web
  /\ full_match token_re (WebService.taskFamily web) = true
  /\ WebService.logGroupName web = str "/aws/ecs/" ++ WebService.taskFamily web.
Proof.
  apply (X15_web_names_whole_when_they_fit Props.empty).
  vm_compute. repeat constructor.
Defined.

(** X16: for every configuration the subnet-group name and the
    replication-group id of Redis match the pattern of a token (letters,
    digits and single hyphens, none at either end), begin with the letter
    [d], and are starts of [prefix-redis-subnets] and of [prefix-redis]. *)
Theorem X16_redis_names_are_tokens (props : Props.t) :
  let redis := Redis.new (resourceNamePrefix props) in
  (full_match token_re (Redis.subnetGroupName redis) = true
   /\ prefix_of (Redis.subnetGroupName redis)
        (resourceNamePrefix props ++ str "-redis-subnets")
   /\ prefix_of [100%N] (Redis.subnetGroupName redis))
  /\ (full_match token_re (Redis.replicationGroupId redis) = true
      /\ prefix_of (Redis.replicationGroupId redis)
           (resourceNamePrefix props ++ str "-redis")
      /\ prefix_of [100%N] (Redis.replicationGroupId redis)).
Proof.
  intro redis. subst redis. unfold Redis.new.
  cbn [Redis.subnetGroupName Redis.replicationGroupId].
  pose proof (resourceNamePrefix_token props) as Tk.
  assert (D : forall (x : jsstring) (n : Z), (1 <= n)%Z ->
            prefix_of [100%N]
              (strip_trailing_hyphens
                 (slice0 (resourceNamePrefix props ++ x) n))).
  { intros x n Hn. rewrite resourceNamePrefix_eq.
    change (str "dify-") with [100; 105; 102; 121; hyphen]%N.
    cbn [app]. rewrite (slice0_cons 100%N _ n Hn).
    rewrite (strip_trailing_hyphens_cons 100%N _ eq_refl).
    eexists. reflexivity. }
  assert (P : forall (x : jsstring) (n : Z),
            prefix_of
              (strip_trailing_hyphens
                 (slice0 (resourceNamePrefix props ++ x) n))
              (resourceNamePrefix props ++ x)).
  { intros x n.
    apply (prefix_of_trans _ (slice0 (resourceNamePrefix props ++ x) n) _).
    - apply strip_trailing_hyphens_prefix.
    - apply slice0_prefix. }
  split; (split; [| split; [apply P | apply D; lia]]).
  - apply token_full_match, cut_token; [| lia].
    apply (token_join _ (str "redis-subnets") Tk token_literal_redis_subnets).
  - apply token_full_match, cut_token; [| lia].
    apply (token_join _ (str "redis") Tk token_literal_redis).
Qed.

(** ** The parameter of the broker URL *)

Import RedisParameter.

Lemma starts_with_slash_collapse (s : jsstring) :
  starts_with_slash (collapse_slashes s) = starts_with_slash s.
Proof.
  induction s as [|c t IH]; simpl; [reflexivity |].
  destruct (is_slash c) eqn:Ec; simpl.
  - destruct (starts_with_slash t) eqn:Et; simpl; congruence.
  - congruence.
Qed.

Lemma collapse_slashes_no_double (s : jsstring) :
  no_double_slash (collapse_slashes s) = true.
Proof.
  induction s as [|c t IH]; simpl; [reflexivity |].
  destruct (is_slash c && starts_with_slash t) eqn:E; [exact IH |].
  simpl. rewrite starts_with_slash_collapse, E, IH. reflexivity.
Qed.

Lemma collapse_slashes_id (s : jsstring) :
  no_double_slash s = true -> collapse_slashes s = s.
Proof.
  induction s as [|c t IH]; simpl; [reflexivity |].
  intro H. apply andb_true_iff in H as [H1 H2].
  apply negb_true_iff in H1. rewrite H1, (IH H2). reflexivity.
Qed.

Lemma in_class_not_slash (c : code_unit) :
  in_class c = true -> is_slash c = false.
Proof.
  intro H. class_to_prop H.
  unfold is_slash, slash. apply N.eqb_neq. lia.
Qed.

Lemma no_double_slash_app (p x : jsstring) :
  all_in_class p -> no_double_slash x = true ->
  no_double_slash (p ++ x) = true.
Proof.
  induction 1 as [|c t Hc _ IH]; intro Hx; simpl; [exact Hx |].
  rewrite (in_class_not_slash c Hc), (IH Hx). reflexivity.
Qed.

(** X17: the name of the broker-URL parameter never holds two slashes in
    a row, whatever the prefix; for the prefix of the stack the replacement
    changes nothing and the name is [/dify/prefix/redis/broker-url]; for
    an empty prefix the doubled slash is merged. *)
Theorem X17_parameterName_slashes :
  (forall prefix : jsstring, no_double_slash (parameterName prefix) = true)
  /\ (forall props : Props.t,
         parameterName (resourceNamePrefix props)
         = str "/dify/" ++ resourceNamePrefix props
           ++ str "/redis/broker-url")
  /\ parameterName [] = str "/dify/redis/broker-url".
Proof.
  split; [| split].
  - intro prefix. apply collapse_slashes_no_double.
  - intro props. unfold parameterName. apply collapse_slashes_id.
    pose proof (resourceNamePrefix_token props) as Tk.
    destruct (token_head _ Tk) as (c & t & E & Hc).
    pose proof (token_in_class _ Tk) as Hcl. rewrite E in *.
    inversion Hcl as [|? ? Hc' Ht]; subst.
    change (str "/dify/") with [47; 100; 105; 102; 121; 47]%N.
    cbn [app no_double_slash starts_with_slash].
    rewrite (in_class_not_slash c Hc').
    change (is_slash 47) with true. change (is_slash 100) with false.
    change (is_slash 105) with false. change (is_slash 102) with false.
    change (is_slash 121) with false.
    cbn [andb negb].
    apply (no_double_slash_app t _ Ht). reflexivity.
  - reflexivity.
Qed.

(** ** The names of the stacks *)

Lemma stackName_head (e : jsstring) :
  firstn 10 (App.stackName e) = str "DifyOnAwsS".
Proof. reflexivity. Qed.

Lemma usEastStackName_head (e : jsstring) (props : App.EnvironmentProps) :
  firstn 10 (App.usEastStackName e props) = str "DifyOnAwsU".
Proof. reflexivity. Qed.

(** X18: the name of the main stack and the name of the stack in
    us-east-1 are never the same, whatever the environment names and the
    sub-domain; two different environment names give two different names of
    the main stack; and the stack in us-east-1 is only created when
    [useCloudFront] is not false. *)
Theorem X18_stack_names_apart :
  (forall (e e' : jsstring) (props : App.EnvironmentProps),
      App.stackName e <> App.usEastStackName e' props)
  /\ (forall e e' : jsstring, App.stackName e = App.stackName e' -> e = e')
  /\ (forall props : App.EnvironmentProps,
         App.needsUsEast1 props = true ->
         App.useCloudFront props <> Some false).
Proof.
  split; [| split].
  - intros e e' props H.
    apply (f_equal (firstn 10)) in H.
    rewrite stackName_head, usEastStackName_head in H.
    vm_compute in H. discriminate H.
  - intros e e' H. unfold App.stackName in H.
    apply app_inv_head in H. exact H.
  - intros props H. unfold App.needsUsEast1 in H.
    destruct (App.useCloudFront props) as [[|] |];
      simpl in H; congruence.
Qed.

(** X19: the sub-domain appended to the name of the stack in us-east-1
    does not keep the names of two instances apart: the environment
    [e-s] without a sub-domain and the environment [e] with the sub-domain
    [s] get the same name. *)
Theorem X19_usEast_names_can_coincide
  (e s : jsstring) (p q : App.EnvironmentProps) :
  s <> [] ->
  App.subDomain p = None ->
  App.subDomain q = Some s ->
  App.usEastStackName (e ++ str "-" ++ s) p = App.usEastStackName e q.
Proof.
  intros Hs Hp Hq. unfold App.usEastStackName.
  rewrite Hp, Hq. simpl truthy_string.
  destruct s as [|c s]; [congruence |].
  cbn [nonempty length Nat.ltb Nat.leb with_default].
  rewrite app_nil_r. reflexivity.
Qed.

Lemma X19_usEast_names_can_coincide_witness :
  App.usEastStackName (str "prod" ++ str "-" ++ str "app")
    {| App.useCloudFront := None; App.domainName := Some (str "example.com");
       App.allowedIPv4Cidrs := None; App.allowedIPv6Cidrs := None;
       App.subDomain := None |}
  = App.usEastStackName (str "prod")
      {| App.useCloudFront := None; App.domainName := Some (str "example.com");
         App.allowedIPv4Cidrs := None; App.allowedIPv6Cidrs := None;
         App.subDomain := Some (str "app") |}.
Proof.
  apply (X19_usEast_names_can_coincide (str "prod") (str "app"));
    [discriminate | reflexivity | reflexivity].
Defined.
